(** * Directed hypergraph motifs: the driver [compute_directed_motifs]

    Shallow embedding of [hypergraphx/motifs/directed_motifs.py].

    The driver is a thin layer over collaborators that live in other
    modules of the package ([hypergraphx.motifs.utils],
    [hypergraphx.generation.directed_configuration_model], the
    [DirectedHypergraph] container).  Those are taken as an interface
    ([Collaborators]); everything the driver itself does - the index loops,
    the dictionary merge of the two order-4 passes, the order dispatch, the
    configuration-model rounds, the alignment loop for [norm_delta] - is
    translated statement by statement into a state-and-exception monad whose
    state also records a trace of the calls made and lines printed. *)

From stdpp Require Import base numbers list strings sorting.

Local Open Scope Z_scope.

(** ** Data *)

(** Nodes are integer labels; a directed hyperedge is a (source, target)
    pair of node tuples; an edge list is a Python [list] of those. *)
Definition Node : Type := Z.
Definition edge : Type := list Node * list Node.
Definition EdgeList : Type := list edge.

(** The collaborators imported at the top of the module.  Python passes
    (and returns) plain tuples and lists, so a motif count table is a list
    of (signature, count) pairs.  The two pass helpers and the two deviation
    helpers are ordinary functions of their arguments; the configuration
    model draws from a random source, which is threaded explicitly, and may
    raise. *)
Class Collaborators : Type := {
  Sig : Type;
  Sig_eq_dec :: EqDecision Sig;
  Visited : Type;
  Float : Type;
  DirectedHypergraph : Type;
  RandState : Type;
  CollabExn : Type;
  (* hypergraph.get_edges(up_to=k) is [get_edges h (Some k)];
     hypergraph.get_edges() is [get_edges h None] *)
  get_edges : DirectedHypergraph -> option Z -> EdgeList;
  _directed_motifs_ho_full :
    EdgeList -> Z -> list (Sig * Z) * Visited;
  _directed_motifs_ho_not_full :
    EdgeList -> Z -> Visited -> list (Sig * Z) * Visited;
  directed_diff_sum : list (Sig * Z) -> list (list (Sig * Z)) -> list Float;
  norm_vector : list Float -> list Float;
  directed_configuration_model :
    EdgeList -> RandState -> (CollabExn + EdgeList) * RandState;
}.

(** ** Python dictionaries

    [mappa] in [_motifs_order_4] is a [dict]: iteration follows insertion
    order, and assigning to a key that is already present replaces the value
    in place, keeping the key's position. *)
Module PyDict.
Section PyDict.
Context {K V : Type} `{EqDecision K}.

Definition t : Type := list (K * V).

Definition empty : t := [].

(** [d[k] = v] *)
Fixpoint set (k : K) (v : V) (d : t) : t :=
  match d with
  | [] => [(k, v)]
  | (k', v') :: d' =>
      if decide (k = k') then (k', v) :: d' else (k', v') :: set k v d'
  end.

(** [d[k]] as an expression; [None] stands for [KeyError]. *)
Fixpoint get (k : K) (d : t) : option V :=
  match d with
  | [] => None
  | (k', v') :: d' => if decide (k = k') then Some v' else get k d'
  end.

(** [d.keys()] *)
Definition keys (d : t) : list K := map fst d.

(** A dictionary holds each key once. *)
Definition wf (d : t) : Prop := NoDup (keys d).
End PyDict.
Arguments t : clear implicits.
End PyDict.

Section Driver.
Context {C : Collaborators}.

Definition Table : Type := list (Sig * Z).

(** ** Effects *)

(** What [print] writes.  The text of the lines is kept structured. *)
Inductive line : Type :=
  | LHypergraph (h : DirectedHypergraph)
  | LObserved (order : Z)
  | LNotFullSize (n : nat)
  | LStep (order : Z) (step : Z).

Inductive event : Type :=
  | Printed (l : line)
  | CallFull (edges : EdgeList) (k : Z)
  | CallNotFull (edges : EdgeList) (k : Z) (visited : Visited)
  | CallConfigModel (edges : EdgeList).

Inductive exn : Type :=
  | ValueError (msg : string)
  | IndexError
  | KeyError
  | UnboundLocalError
  | CollaboratorError (e : CollabExn).

Record World : Type := mkWorld {
  rand : RandState;
  trace : list event;
}.

Definition M (A : Type) : Type := World -> (exn + A) * World.

Definition ret {A} (a : A) : M A := fun w => (inr a, w).

Definition raise {A} (e : exn) : M A := fun w => (inl e, w).

Definition bind {A B} (m : M A) (k : A -> M B) : M B :=
  fun w =>
    match m w with
    | (inr a, w') => k a w'
    | (inl e, w') => (inl e, w')
    end.

Definition emit (ev : event) : M unit :=
  fun w => (inr tt, mkWorld (rand w) (trace w ++ [ev])).

Definition print (l : line) : M unit := emit (Printed l).


Notation "x <- m ; k" := (bind m (fun x => k))
  (at level 20, m at level 100, k at level 200, only parsing).
Notation "' pat <- m ; k" :=
  (bind m (fun x => match x with pat => k end))
  (at level 20, pat pattern, m at level 100, k at level 200, only parsing).

(** [for x in xs: body], with the variables the body assigns to carried as
    the loop state [s]. *)
Fixpoint for_each {A S} (xs : list A) (body : A -> S -> M S) (s : S) : M S :=
  match xs with
  | [] => ret s
  | x :: xs' => s' <- body x s ; for_each xs' body s'
  end.

(** [range(n)] *)
Definition range (n : nat) : list nat := seq 0 n.

(** [l[i]] for a list [l]; out of range raises [IndexError]. *)
Definition index {A} (l : list A) (i : nat) : M A :=
  match l !! i with
  | Some x => ret x
  | None => raise IndexError
  end.

(** [d[k]] for a dict [d]; a missing key raises [KeyError]. *)
Definition lookup_key (d : PyDict.t Sig Z) (k : Sig) : M Z :=
  match PyDict.get k d with
  | Some v => ret v
  | None => raise KeyError
  end.

(** Calls into the collaborators, recorded in the trace. *)
Definition call_full (edges : EdgeList) (k : Z) : M (Table * Visited) :=
  _ <- emit (CallFull edges k) ; ret (_directed_motifs_ho_full edges k).

Definition call_not_full (edges : EdgeList) (k : Z) (visited : Visited)
  : M (Table * Visited) :=
  _ <- emit (CallNotFull edges k visited) ;
  ret (_directed_motifs_ho_not_full edges k visited).

Definition call_config_model (edges : EdgeList) : M EdgeList :=
  fun w =>
    let w1 := mkWorld (rand w) (trace w ++ [CallConfigModel edges]) in
    match directed_configuration_model edges (rand w1) with
    | (inl e, s') => (inl (CollaboratorError e), mkWorld s' (trace w1))
    | (inr e1, s') => (inr e1, mkWorld s' (trace w1))
    end.

(** ** The nested classifiers *)

(** [_motifs_order_3(edges)], lines 32-39. *)
Definition _motifs_order_3 (edges : EdgeList) : M Table :=
  '(full, visited) <- call_full edges 3 ;
  res <- for_each (range (length full))
           (fun i (res : Table) =>
              p <- index full i ;
              ret (res ++ [(p.1, p.2)]))
           [] ;
  ret res.

(** [_motifs_order_4(edges)], lines 41-55. *)
Definition _motifs_order_4 (edges : EdgeList) : M Table :=
  '(full, visited) <- call_full edges 4 ;
  '(not_full, visited) <- call_not_full edges 4 visited ;
  _ <- print (LNotFullSize (length not_full)) ;
  mappa <- for_each (range (length full))
             (fun i (mappa : PyDict.t Sig Z) =>
                p <- index full i ;
                ret (PyDict.set p.1 p.2 mappa))
             PyDict.empty ;
  mappa <- for_each (range (length not_full))
             (fun i (mappa : PyDict.t Sig Z) =>
                p <- index not_full i ;
                ret (PyDict.set p.1 p.2 mappa))
             mappa ;
  res <- for_each (PyDict.keys mappa)
           (fun key (res : Table) =>
              v <- lookup_key mappa key ;
              ret (res ++ [(key, v)]))
           [] ;
  ret res.

(** ** The driver *)

Record Output : Type := mkOutput {
  observed : Table;
  config_model : list Table;
  norm_delta : list (Sig * Float);
}.

Definition unsupported_order_msg : string :=
  "Exact computation of motifs of order > 5 is not available.".

(** [compute_directed_motifs(hypergraph, order, runs_config_model)],
    lines 58-98.  The [output] dict is only handed to the caller by the final
    [return]; an exception on the way leaves the caller with the exception
    alone. *)
Definition compute_directed_motifs
  (hypergraph : DirectedHypergraph) (order : Z) (runs_config_model : Z)
  : M Output :=
  let edges := get_edges hypergraph (Some order) in
  _ <- print (LHypergraph hypergraph) ;
  _ <- print (LObserved order) ;
  obs <- (if decide (order = 3) then _motifs_order_3 edges
          else if decide (order = 4) then _motifs_order_4 edges
          else raise (ValueError unsupported_order_msg)) ;
  let ROUNDS := runs_config_model in
  results <- for_each (range (Z.to_nat ROUNDS))
               (fun i (results : list Table) =>
                  _ <- print (LStep order (Z.of_nat i + 1)) ;
                  e1 <- call_config_model (get_edges hypergraph None) ;
                  m1 <- (if decide (order = 3) then _motifs_order_3 e1
                         else if decide (order = 4) then _motifs_order_4 e1
                         else raise UnboundLocalError) ;
                  ret (results ++ [m1]))
               [] ;
  let delta := directed_diff_sum obs results in
  let norm_delta := norm_vector delta in
  nd <- for_each (range (length delta))
          (fun i (nd : list (Sig * Float)) =>
             o <- index obs i ;
             x <- index norm_delta i ;
             ret (nd ++ [(o.1, x)]))
          [] ;
  ret (mkOutput obs results nd).

(** Call-site resolution of the keyword defaults [order=3] and
    [runs_config_model=10] of the [def] line. *)
Definition compute_directed_motifs_kw
  (hypergraph : DirectedHypergraph)
  (order : option Z) (runs_config_model : option Z) : M Output :=
  compute_directed_motifs hypergraph
    (default 3 order) (default 10 runs_config_model).

(** ** What the driver computes, stated without the monad

    The definitions below are the reference against which the monadic
    translation above is proved: the value and the trace of each classifier,
    and the successive draws of the configuration model. *)

Definition log (w : World) (evs : list event) : World :=
  mkWorld (rand w) (trace w ++ evs).

(** The dictionary built by the two assignment loops of [_motifs_order_4]. *)
Definition assign_all (rows : Table) (d : PyDict.t Sig Z) : PyDict.t Sig Z :=
  fold_left (fun d p => PyDict.set p.1 p.2 d) rows d.

Definition merge_passes (full not_full : Table) : Table :=
  assign_all not_full (assign_all full PyDict.empty).

Definition table3 (edges : EdgeList) : Table :=
  (_directed_motifs_ho_full edges 3).1.

Definition events3 (edges : EdgeList) : list event :=
  [CallFull edges 3].

(** The Visited-State the not-full pass is started with. *)
Definition visited4 (edges : EdgeList) : Visited :=
  (_directed_motifs_ho_full edges 4).2.

Definition full4 (edges : EdgeList) : Table :=
  (_directed_motifs_ho_full edges 4).1.

Definition not_full4 (edges : EdgeList) : Table :=
  (_directed_motifs_ho_not_full edges 4 (visited4 edges)).1.

Definition table4 (edges : EdgeList) : Table :=
  merge_passes (full4 edges) (not_full4 edges).

Definition events4 (edges : EdgeList) : list event :=
  [CallFull edges 4;
   CallNotFull edges 4 (visited4 edges);
   Printed (LNotFullSize (length (not_full4 edges)))].

Definition classify (order : Z) (edges : EdgeList) : Table :=
  if decide (order = 3) then table3 edges else table4 edges.

Definition classify_events (order : Z) (edges : EdgeList) : list event :=
  if decide (order = 3) then events3 edges else events4 edges.

(** [n] successive draws from the configuration model on [src], starting
    with random state [s].  Either all succeed ([inr], the drawn edge lists in
    call order), or a call raises ([inl], the exception together with the
    edge lists drawn before it); the state is the one the last call made
    left behind. *)
Fixpoint draws (n : nat) (src : EdgeList) (s : RandState)
  : (CollabExn * list EdgeList + list EdgeList) * RandState :=
  match n with
  | O => (inr [], s)
  | S n' =>
      match directed_configuration_model src s with
      | (inl e, s1) => (inl (e, []), s1)
      | (inr e1, s1) =>
          match draws n' src s1 with
          | (inl (e, drawn), s2) => (inl (e, e1 :: drawn), s2)
          | (inr rest, s2) => (inr (e1 :: rest), s2)
          end
      end
  end.

(** Trace of the completed rounds [a, a+1, ...] that drew [ess]. *)
Fixpoint rounds_events (order : Z) (src : EdgeList) (a : nat)
  (ess : list EdgeList) : list event :=
  match ess with
  | [] => []
  | e1 :: rest =>
      Printed (LStep order (Z.of_nat a + 1)) :: CallConfigModel src
        :: classify_events order e1 ++ rounds_events order src (S a) rest
  end.

(** Trace of a round that stops at the configuration model's exception. *)
Definition failed_round_events (order : Z) (src : EdgeList) (a : nat)
  : list event :=
  [Printed (LStep order (Z.of_nat a + 1)); CallConfigModel src].

(** The alignment loop of lines 93-96 as a function: [n] is [len(delta)]. *)
Fixpoint align (obs : Table) (nv : list Float) (n : nat) {struct n}
  : option (list (Sig * Float)) :=
  match n with
  | O => Some []
  | S n' =>
      match obs, nv with
      | o :: obs', x :: nv' =>
          match align obs' nv' n' with
          | Some r => Some ((o.1, x) :: r)
          | None => None
          end
      | _, _ => None
      end
  end.

Definition finish (obs : Table) (results : list Table) : exn + Output :=
  let delta := directed_diff_sum obs results in
  match align obs (norm_vector delta) (length delta) with
  | Some nd => inr (mkOutput obs results nd)
  | None => inl IndexError
  end.

(** Reading a trace: the edge lists handed to the full pass, the arguments
    of the not-full pass, and the edge lists handed to the configuration
    model, each in call order. *)
Definition full_inputs (evs : list event) : list EdgeList :=
  omap (fun ev => match ev with CallFull es _ => Some es | _ => None end) evs.

Definition not_full_inputs (evs : list event)
  : list (EdgeList * Z * Visited) :=
  omap (fun ev =>
          match ev with CallNotFull es k v => Some (es, k, v) | _ => None end)
    evs.

Definition config_inputs (evs : list event) : list EdgeList :=
  omap (fun ev =>
          match ev with CallConfigModel es => Some es | _ => None end)
    evs.

(** The dispatch on [order] as it is written at lines 64-70. *)
Definition observed_dispatch (order : Z) (edges : EdgeList) : M Table :=
  if decide (order = 3) then _motifs_order_3 edges
  else if decide (order = 4) then _motifs_order_4 edges
  else raise (ValueError unsupported_order_msg).

(** The body of the round loop, lines 79-87. *)
Definition round_body (hypergraph : DirectedHypergraph) (order : Z)
  (i : nat) (results : list Table) : M (list Table) :=
  _ <- print (LStep order (Z.of_nat i + 1)) ;
  e1 <- call_config_model (get_edges hypergraph None) ;
  m1 <- (if decide (order = 3) then _motifs_order_3 e1
         else if decide (order = 4) then _motifs_order_4 e1
         else raise UnboundLocalError) ;
  ret (results ++ [m1]).

(** Events every call of the driver starts with. *)
Definition preamble (hypergraph : DirectedHypergraph) (order : Z)
  : list event :=
  [Printed (LHypergraph hypergraph); Printed (LObserved order)].

(** ** Contracts of the absent helpers *)

(** Modelled from the spec: [directed_diff_sum] and [norm_vector] are
    defined in [hypergraphx/motifs/utils.py], which is not among the sources.
    Section 4.5 has the aggregator compute one difference "for each class
    present in the observed table", and the normalisation reduce it without
    changing which classes are reported: the first returns one entry per
    observed row, the second one entry per entry it is given. *)
Definition deviation_helpers_aligned : Prop :=
  (forall (obs : Table) (cms : list Table),
      length (directed_diff_sum obs cms) = length obs)
  /\ (forall (d : list Float), length (norm_vector d) = length d).

End Driver.

Notation "x <- m ; k" := (bind m (fun x => k))
  (at level 20, m at level 100, k at level 200, only parsing).
Notation "' pat <- m ; k" :=
  (bind m (fun x => match x with pat => k end))
  (at level 20, pat pattern, m at level 100, k at level 200, only parsing).

Section PassContract.
Context {C : Collaborators}.

(** The two pass helpers return counts, not the subsets behind them.  To
    speak about which Node Subsets a pass tallied, the subsets are given
    names here: [tallied_by_full es k s] reads "the full pass over [es] at
    order [k] tallied subset [s]", [candidate es k s] that the not-full
    enumerator reaches [s], and [tallied_by_not_full es k v s] that the
    not-full pass started with Visited-State [v] tallied [s]. *)
Variable Subset : Type.
Variable in_visited : Subset -> Visited -> bool.
Variable tallied_by_full : EdgeList -> Z -> Subset -> Prop.
Variable candidate : EdgeList -> Z -> Subset -> Prop.
Variable tallied_by_not_full : EdgeList -> Z -> Visited -> Subset -> Prop.




End PassContract.

(** ** A concrete instance

    Small executable collaborators, used to run the driver on concrete
    hypergraphs.  They follow the shape the specification gives the real
    ones but are deliberately simple: the signature of a subset is the number
    of hyperedges induced on it (coarser than a canonical signature:
    subsets that are not isomorphic can share it), the "randomisation"
    reverses the edge list
    and gives up once its budget of draws is spent, and deviations are
    integers. *)
Module Sample.

(** The nodes an edge spans, as a sorted tuple without repetition. *)
Definition nodes_of (e : edge) : list Z :=
  merge_sort Z.le (remove_dups (e.1 ++ e.2)).

Definition spans (k : Z) (s : list Z) : Prop := Z.of_nat (length s) = k.

#[local] Instance spans_dec k s : Decision (spans k s).
Proof. unfold spans. apply _. Defined.

Definition induced (es : EdgeList) (s : list Z) : EdgeList :=
  filter (fun e => forallb (fun x => bool_decide (x ∈ s)) (nodes_of e) = true)
    es.

Definition signature (es : EdgeList) (s : list Z) : nat :=
  length (induced es s).

Definition tally (sigs : list nat) : list (nat * Z) :=
  fold_left
    (fun d sg => PyDict.set sg (default 0 (PyDict.get sg d) + 1) d)
    sigs PyDict.empty.

Definition full_subsets (es : EdgeList) (k : Z) : list (list Z) :=
  remove_dups (filter (spans k) (map nodes_of es)).

Definition pair_unions (es : EdgeList) : list (list Z) :=
  e1 ← es; e2 ← es;
  [merge_sort Z.le (remove_dups (nodes_of e1 ++ nodes_of e2))].

Definition candidates (es : EdgeList) (k : Z) : list (list Z) :=
  remove_dups (filter (spans k) (pair_unions es)).

Definition remaining (es : EdgeList) (k : Z) (visited : list (list Z))
  : list (list Z) :=
  filter (fun s => s ∉ visited) (candidates es k).

Definition ho_full (es : EdgeList) (k : Z)
  : list (nat * Z) * list (list Z) :=
  let subs := full_subsets es k in
  (tally (map (signature es) subs), subs).

Definition ho_not_full (es : EdgeList) (k : Z) (visited : list (list Z))
  : list (nat * Z) * list (list Z) :=
  let subs := remaining es k visited in
  (tally (map (signature es) subs), visited ++ subs).

Inductive failure : Type := DegreeSequenceInfeasible.

(** The random state is the number of draws that will still succeed. *)
Definition config_model (es : EdgeList) (s : nat)
  : (failure + EdgeList) * nat :=
  match s with
  | O => (inl DegreeSequenceInfeasible, O)
  | S s' => (inr (rev es), s')
  end.

(** Modelled from the spec: the [DirectedHypergraph] container is not among
    the sources.  Section 6: [get_edges(up_to: order)] is the "Edge List
    filtered to hyperedges with total node count <= order", [get_edges()]
    the "full, unfiltered Edge List". *)
Definition edges_of (h : EdgeList) (up_to : option Z) : EdgeList :=
  match up_to with
  | None => h
  | Some k => filter (fun e => Z.of_nat (length (nodes_of e)) <= k) h
  end.

Definition count_in (sg : nat) (t : list (nat * Z)) : Z :=
  default 0 (PyDict.get sg t).

Definition diff_sum (obs : list (nat * Z)) (cms : list (list (nat * Z)))
  : list Z :=
  map (fun p => foldr (fun t acc => acc + (p.2 - count_in p.1 t)) 0 cms) obs.

#[export] Instance collaborators : Collaborators := {|
  Sig := nat;
  Visited := list (list Z);
  Float := Z;
  DirectedHypergraph := EdgeList;
  RandState := nat;
  CollabExn := failure;
  get_edges := edges_of;
  _directed_motifs_ho_full := ho_full;
  _directed_motifs_ho_not_full := ho_not_full;
  directed_diff_sum := diff_sum;
  norm_vector := fun d => d;
  directed_configuration_model := config_model;
|}.

(** Two hyperedges on nodes 1-4, one of them spanning all four, and two
    disjoint pairs. *)
Definition h1 : EdgeList :=
  [([1; 2], [3; 4]); ([1], [2]); ([5], [6]); ([7], [8])].

(** The hypergraph of the determinism scenario. *)
Definition h2 : EdgeList :=
  [([1; 2], [3]); ([2; 3], [1; 4])].

(** A world in which two draws succeed and the third fails, and one in
    which twelve succeed. *)
Definition world_of (budget : nat) (evs : list event) : World :=
  mkWorld (budget : RandState) evs.

Definition w0 : World := world_of 2 [].
Definition w1 : World := world_of 12 [].

Definition infeasible : CollabExn := DegreeSequenceInfeasible.

Definition hg1 : DirectedHypergraph := h1.
Definition hg2 : DirectedHypergraph := h2.





End Sample.

(** ** Further Python built-ins *)

Module PyBuiltins.
Section PyBuiltins.
Context {K V : Type} `{EqDecision K}.

(** [dict(rows)] for an iterable of pairs: the pairs are assigned one after
    the other. *)
Definition dict (rows : list (K * V)) : PyDict.t K V :=
  fold_left (fun d p => PyDict.set p.1 p.2 d) rows PyDict.empty.

(** [d.values()], in the order of [d.keys()]. *)
Definition values (d : PyDict.t K V) : list V := map snd d.

(** The elements of [l] in the order in which they first appear. *)
Definition first_occurrences (l : list K) : list K :=
  fold_left (fun seen k => if decide (k ∈ seen) then seen else seen ++ [k])
    l [].

End PyBuiltins.
End PyBuiltins.

Section Progress.
Context {C : Collaborators}.

(** The round numbers of the "Step" lines of a trace, in print order. *)
Definition step_numbers (evs : list event) : list Z :=
  omap (fun ev =>
          match ev with Printed (LStep _ step) => Some step | _ => None end)
    evs.

(** How many rounds a call begins, given what the draws do: all of them
    when every draw succeeds, otherwise the completed ones and the one that
    fails. *)
Definition rounds_started
  (r : (CollabExn * list EdgeList + list EdgeList) * RandState) : nat :=
  match r.1 with
  | inr ess => length ess
  | inl (_, drawn) => S (length drawn)
  end.

End Progress.

(** ** The helper of the incidence test

    [tests/linalg/test_incidence_and_adjacency.py], lines 45-55: the test
    turns the mapping index -> node returned by the library around and
    rewrites every hyperedge from nodes to indices.  The library under test
    is not among the sources; the mapping is any dictionary. *)
Module IncidenceTest.
Section IncidenceTest.
Context {Idx Nd : Type} `{EqDecision Idx} `{EqDecision Nd}.

(** [transform_hye_to_new_indices(hye, mapping_)], lines 46-47:
    [tuple(mapping_[node] for node in hye)].  [None] stands for the
    [KeyError] of the first node that is not a key. *)
Definition transform_hye_to_new_indices {K V : Type} `{EqDecision K}
  (hye : list K) (mapping_ : PyDict.t K V) : option (list V) :=
  mapM (fun node => PyDict.get node mapping_) hye.

(** [inverse_mapping = dict(zip(mapping.values(), mapping.keys()))],
    line 50. *)
Definition inverse_mapping (mapping : PyDict.t Idx Nd) : PyDict.t Nd Idx :=
  PyBuiltins.dict (zip (PyBuiltins.values mapping) (PyDict.keys mapping)).

(** [hye_list], lines 52-55: every hyperedge rewritten with the inverse
    mapping. *)
Definition hye_list (edges : list (list Nd)) (mapping : PyDict.t Idx Nd)
  : option (list (list Idx)) :=
  mapM (fun hye => transform_hye_to_new_indices hye (inverse_mapping mapping))
    edges.

End IncidenceTest.
End IncidenceTest.

(** ** Further concrete instances *)

Module Sample2.

(** As [Sample.collaborators], with a difference helper that returns one
    entry too many. *)
Definition long_diff_sum (obs : list (nat * Z)) (cms : list (list (nat * Z)))
  : list Z :=
  0 :: Sample.diff_sum obs cms.

Definition misaligned : Collaborators := {|
  Sig := nat;
  Visited := list (list Z);
  Float := Z;
  DirectedHypergraph := EdgeList;
  RandState := nat;
  CollabExn := Sample.failure;
  get_edges := Sample.edges_of;
  _directed_motifs_ho_full := Sample.ho_full;
  _directed_motifs_ho_not_full := Sample.ho_not_full;
  directed_diff_sum := long_diff_sum;
  norm_vector := fun d => d;
  directed_configuration_model := Sample.config_model;
|}.

Definition world_of (budget : nat) : @World misaligned :=
  @mkWorld misaligned budget [].

Definition hg2 : @DirectedHypergraph misaligned := Sample.h2.

(** One hyperedge on four nodes and two disjoint pairs: the subset the full
    pass finds has one induced hyperedge, the one the not-full pass finds
    has two. *)
Definition h3 : EdgeList :=
  [([1; 2], [3; 4]); ([5], [6]); ([7], [8])].

Definition hg3 : @DirectedHypergraph Sample.collaborators := h3.

(** A mapping index -> node, as the incidence test receives it. *)
Definition mapping : PyDict.t nat string :=
  [(0%nat, "a"); (1%nat, "b"); (2%nat, "c")].

End Sample2.

(** Pass helpers whose results have a signature in common.  The rows are
    given outright, as what the two helper calls return: signature 7 with
    count 1 from the full pass and with count 3 from the not-full pass. *)
Module Overlap.

Definition collaborators : Collaborators := {|
  Sig := nat;
  Visited := unit;
  Float := Z;
  DirectedHypergraph := EdgeList;
  RandState := unit;
  CollabExn := Empty_set;
  get_edges := fun h _ => h;
  _directed_motifs_ho_full := fun _ _ => ([(7%nat, 1)], tt);
  _directed_motifs_ho_not_full := fun _ _ _ => ([(7%nat, 3)], tt);
  directed_diff_sum := fun obs _ => map (fun _ => 0) obs;
  norm_vector := fun d => d;
  directed_configuration_model := fun es s => (inr es, s);
|}.

Definition w0 : @World collaborators := @mkWorld collaborators tt [].

End Overlap.

(** * Properties *)

Module PyDictFacts.
Section PyDictFacts.
Context {K V : Type} `{EqDecision K}.
Implicit Types (d : PyDict.t K V) (k : K) (v : V).

Lemma keys_set k v d :
  PyDict.keys (PyDict.set k v d) =
  if decide (k ∈ PyDict.keys d) then PyDict.keys d else PyDict.keys d ++ [k].
Proof.
  induction d as [|[k' v'] d IH].
  - cbn. case_decide as Hin; [by apply elem_of_nil in Hin | done].
  - cbn [PyDict.set]. destruct (decide (k = k')) as [->|Hne].
    + clear IH. cbn. case_decide as Hin; [done | exfalso; apply Hin; left].
    + cbn [PyDict.keys map fst]. fold (PyDict.keys (PyDict.set k v d)).
      fold (PyDict.keys d). rewrite IH.
      destruct (decide (k ∈ PyDict.keys d)) as [Hin|Hnin].
      * rewrite decide_True; [done | by right].
      * rewrite decide_False; [done |].
        intros Hin. apply elem_of_cons in Hin as [?|?]; done.
Qed.

Lemma wf_set k v d : PyDict.wf d -> PyDict.wf (PyDict.set k v d).
Proof.
  unfold PyDict.wf. intros Hd. rewrite keys_set.
  destruct (decide (k ∈ PyDict.keys d)); [done |].
  apply NoDup_app. split_and!; [done | | apply NoDup_singleton].
  intros x Hx Hx'. apply list_elem_of_singleton in Hx'. by subst.
Qed.

Lemma get_set_eq k v d : PyDict.get k (PyDict.set k v d) = Some v.
Proof.
  induction d as [|[k' v'] d IH]; simpl.
  - by rewrite decide_True.
  - destruct (decide (k = k')) as [->|Hne]; simpl.
    + by rewrite decide_True.
    + by rewrite decide_False.
Qed.

Lemma get_set_ne k k' v d :
  k ≠ k' -> PyDict.get k (PyDict.set k' v d) = PyDict.get k d.
Proof.
  intros Hne. induction d as [|[k0 v0] d IH]; simpl.
  - by rewrite decide_False.
  - destruct (decide (k' = k0)) as [->|Hne']; simpl.
    + by rewrite !decide_False.
    + destruct (decide (k = k0)); done.
Qed.

Lemma get_app_fresh k v d1 d2 :
  k ∉ PyDict.keys d1 -> PyDict.get k (d1 ++ (k, v) :: d2) = Some v.
Proof.
  induction d1 as [|[k' v'] d1 IH]; simpl; intros Hk.
  - by rewrite decide_True.
  - apply not_elem_of_cons in Hk as [Hne Hk].
    rewrite decide_False; [by apply IH | done].
Qed.

End PyDictFacts.
End PyDictFacts.

Section Facts.
Context {C : Collaborators}.

(** ** The loops *)

(** An index loop over [range(len(l))] that reads [l[i]] never raises: it
    is the left fold over [l]. *)
Lemma for_each_index {A S} (g : S -> A -> S) (l pre : list A) (s : S)
  (w : World) :
  for_each (seq (length pre) (length l))
    (fun i s => p <- index (pre ++ l) i; ret (g s p)) s w
  = (inr (fold_left g l s), w).
Proof.
  revert pre s. induction l as [|a l IH]; intros pre s; [done |].
  cbn [length seq for_each fold_left].
  unfold bind at 1. unfold index at 1.
  rewrite list_lookup_middle by done. unfold bind at 1, ret at 1.
  specialize (IH (pre ++ [a]) (g s a)).
  rewrite length_app, Nat.add_1_r, <- app_assoc in IH. exact IH.
Qed.

Lemma for_each_range {A S} (g : S -> A -> S) (l : list A) (s : S)
  (w : World) :
  for_each (range (length l))
    (fun i s => p <- index l i; ret (g s p)) s w
  = (inr (fold_left g l s), w).
Proof. exact (for_each_index g l [] s w). Qed.

Lemma fold_left_snoc_rows (l r : Table) :
  fold_left (fun (res : Table) p => res ++ [(p.1, p.2)]) l r = r ++ l.
Proof.
  revert r. induction l as [|[sg c] l IH]; intros r; simpl.
  - by rewrite app_nil_r.
  - rewrite IH, <- app_assoc. done.
Qed.

(** Reading a well-formed dictionary back key by key gives its rows. *)
Lemma for_each_keys (d1 d2 : PyDict.t Sig Z) (res : Table) (w : World) :
  PyDict.wf (d1 ++ d2) ->
  for_each (PyDict.keys d2)
    (fun key (res : Table) =>
       v <- lookup_key (d1 ++ d2) key; ret (res ++ [(key, v)])) res w
  = (inr (res ++ d2), w).
Proof.
  revert d1 res. induction d2 as [|[k v] d2 IH]; intros d1 res Hwf.
  - simpl. by rewrite app_nil_r.
  - cbn [PyDict.keys map for_each fst].
    unfold bind at 1. unfold lookup_key at 1.
    assert (k ∉ PyDict.keys d1) as Hfresh.
    { unfold PyDict.wf, PyDict.keys in Hwf. rewrite map_app in Hwf.
      apply NoDup_app in Hwf as (_ & Hdis & _).
      intros Hin. apply (Hdis k Hin). simpl. left. }
    rewrite PyDictFacts.get_app_fresh by done.
    unfold bind at 1, ret at 1.
    specialize (IH (d1 ++ [(k, v)]) (res ++ [(k, v)])).
    rewrite <- !app_assoc in IH. simpl in IH. apply IH. exact Hwf.
Qed.

Lemma wf_assign_all (rows : Table) (d : PyDict.t Sig Z) :
  PyDict.wf d -> PyDict.wf (assign_all rows d).
Proof.
  unfold assign_all. revert d.
  induction rows as [|p rows IH]; intros d Hd; simpl; [done |].
  apply IH, PyDictFacts.wf_set, Hd.
Qed.

Lemma wf_merge_passes (full not_full : Table) :
  PyDict.wf (merge_passes full not_full).
Proof.
  unfold merge_passes. do 2 apply wf_assign_all.
  unfold PyDict.wf, PyDict.empty. simpl. apply NoDup_nil_2.
Qed.

(** ** The merge of the two order-4 passes *)

Lemma get_assign_all (k : Sig) (rows : Table) (d : PyDict.t Sig Z) :
  PyDict.get k (assign_all rows d) =
  match PyDict.get k (assign_all rows PyDict.empty) with
  | Some c => Some c
  | None => PyDict.get k d
  end.
Proof.
  unfold assign_all. induction rows as [|[k' c'] rows IH] using rev_ind.
  - done.
  - rewrite !fold_left_app. cbn [fold_left fst snd].
    destruct (decide (k = k')) as [->|Hne].
    + by rewrite !PyDictFacts.get_set_eq.
    + by rewrite !PyDictFacts.get_set_ne.
Qed.

(** A signature the not-full pass reports keeps the not-full count: the
    second assignment loop replaces what the first one stored. *)
Lemma merge_passes_last_wins (full not_full : Table) (sg : Sig) (c : Z) :
  PyDict.get sg (assign_all not_full PyDict.empty) = Some c ->
  PyDict.get sg (merge_passes full not_full) = Some c.
Proof. intros Hc. unfold merge_passes. by rewrite get_assign_all, Hc. Qed.

Lemma merge_passes_full_only (full not_full : Table) (sg : Sig) :
  PyDict.get sg (assign_all not_full PyDict.empty) = None ->
  PyDict.get sg (merge_passes full not_full)
  = PyDict.get sg (assign_all full PyDict.empty).
Proof. intros Hc. unfold merge_passes. by rewrite get_assign_all, Hc. Qed.

(** ** The classifiers *)

Lemma run_motifs_order_3 (edges : EdgeList) (w : World) :
  _motifs_order_3 edges w = (inr (table3 edges), log w (events3 edges)).
Proof.
  unfold _motifs_order_3, call_full, table3, events3, log.
  unfold bind at 1. unfold bind at 1. unfold emit at 1. unfold ret at 1.
  destruct (_directed_motifs_ho_full edges 3) as [full visited] eqn:E.
  unfold bind at 1.
  rewrite for_each_range.
  rewrite fold_left_snoc_rows. done.
Qed.

Lemma run_motifs_order_4 (edges : EdgeList) (w : World) :
  _motifs_order_4 edges w = (inr (table4 edges), log w (events4 edges)).
Proof.
  unfold _motifs_order_4, call_full, call_not_full, print.
  unfold table4, events4, not_full4, full4, visited4, log.
  unfold bind at 1. unfold bind at 1. unfold emit at 1. unfold ret at 1.
  destruct (_directed_motifs_ho_full edges 4) as [full visited] eqn:E.
  unfold bind at 1. unfold bind at 1. unfold emit at 1. unfold ret at 1.
  cbn [rand trace fst snd].
  destruct (_directed_motifs_ho_not_full edges 4 visited)
    as [not_full visited'] eqn:E'.
  unfold bind at 1. unfold emit at 1. cbn [rand trace fst snd].
  unfold bind at 1.
  rewrite for_each_range.
  unfold bind at 1.
  rewrite for_each_range.
  unfold bind at 1.
  fold (assign_all full PyDict.empty).
  fold (assign_all not_full (assign_all full PyDict.empty)).
  fold (merge_passes full not_full).
  rewrite (for_each_keys [] (merge_passes full not_full) [])
    by apply wf_merge_passes.
  unfold ret. rewrite <- !app_assoc. done.
Qed.

Lemma run_dispatch (order : Z) (edges : EdgeList) (w : World) :
  order = 3 \/ order = 4 ->
  observed_dispatch order edges w
  = (inr (classify order edges), log w (classify_events order edges)).
Proof.
  intros Hord. unfold observed_dispatch, classify, classify_events.
  destruct (decide (order = 3)) as [->|H3].
  - apply run_motifs_order_3.
  - destruct (decide (order = 4)) as [->|H4]; [apply run_motifs_order_4 | lia].
Qed.

(** ** The rounds *)

Lemma run_round_body h order i results w :
  order = 3 \/ order = 4 ->
  round_body h order i results w =
  match directed_configuration_model (get_edges h None) (rand w) with
  | (inl e, s') =>
      (inl (CollaboratorError e),
       mkWorld s'
         (trace w ++ failed_round_events order (get_edges h None) i))
  | (inr e1, s') =>
      (inr (results ++ [classify order e1]),
       mkWorld s'
         (trace w ++
            Printed (LStep order (Z.of_nat i + 1))
            :: CallConfigModel (get_edges h None)
            :: classify_events order e1))
  end.
Proof.
  intros Hord. unfold round_body, failed_round_events.
  unfold bind at 1. unfold print, emit at 1.
  unfold bind at 1. unfold call_config_model at 1. cbn [rand trace].
  destruct (directed_configuration_model (get_edges h None) (rand w))
    as [[e|e1] s'].
  - by rewrite <- app_assoc.
  - unfold bind at 1.
    pose proof (run_dispatch order e1
                  (mkWorld s'
                     ((trace w ++ [Printed (LStep order (Z.of_nat i + 1))])
                        ++ [CallConfigModel (get_edges h None)]))
                  Hord) as Hrun.
    unfold observed_dispatch in Hrun.
    destruct (decide (order = 3)) as [H3|H3].
    + rewrite Hrun. unfold ret, log. cbn [rand trace].
      by rewrite <- !app_assoc.
    + destruct (decide (order = 4)) as [H4|H4]; [|lia].
      rewrite Hrun. unfold ret, log. cbn [rand trace].
      by rewrite <- !app_assoc.
Qed.

Lemma run_rounds h order (n : nat) :
  order = 3 \/ order = 4 ->
  forall (a : nat) (results : list Table) (w : World),
    for_each (seq a n) (round_body h order) results w =
    match draws n (get_edges h None) (rand w) with
    | (inr ess, s') =>
        (inr (results ++ map (classify order) ess),
         mkWorld s'
           (trace w ++ rounds_events order (get_edges h None) a ess))
    | (inl (e, drawn), s') =>
        (inl (CollaboratorError e),
         mkWorld s'
           (trace w ++ rounds_events order (get_edges h None) a drawn
              ++ failed_round_events order (get_edges h None)
                   (a + length drawn)))
    end.
Proof.
  intros Hord. induction n as [|n IH]; intros a results w.
  - cbn. unfold ret. rewrite !app_nil_r. by destruct w.
  - cbn [seq for_each draws]. unfold bind at 1.
    rewrite run_round_body by done.
    destruct (directed_configuration_model (get_edges h None) (rand w))
      as [[e|e1] s1].
    + cbn [rounds_events length app]. by rewrite Nat.add_0_r.
    + rewrite IH. cbn [rand trace].
      destruct (draws n (get_edges h None) s1) as [[[e drawn]|ess] s2].
      * cbn [rounds_events length].
        rewrite <- !app_assoc. cbn [app].
        by rewrite <- ?app_assoc, Nat.add_succ_r.
      * cbn [rounds_events map].
        rewrite <- !app_assoc. cbn [app]. by rewrite <- ?app_assoc.
Qed.

(** ** The alignment loop *)

Lemma run_align_from (n : nat) :
  forall (obs pre1 : Table) (nv pre2 : list Float)
         (acc : list (Sig * Float)) (w : World),
    length pre1 = length pre2 ->
    for_each (seq (length pre1) n)
      (fun i (nd : list (Sig * Float)) =>
         o <- index (pre1 ++ obs) i ;
         x <- index (pre2 ++ nv) i ;
         ret (nd ++ [(o.1, x)]))
      acc w
    = (match align obs nv n with
       | Some r => inr (acc ++ r)
       | None => inl IndexError
       end, w).
Proof.
  induction n as [|n IH]; intros obs pre1 nv pre2 acc w Hlen.
  - cbn. unfold ret. by rewrite app_nil_r.
  - cbn [seq for_each align]. unfold bind at 1. unfold bind at 1.
    unfold index at 1.
    destruct obs as [|o obs].
    { rewrite lookup_ge_None_2 by (rewrite length_app; cbn; lia). done. }
    rewrite list_lookup_middle by done. unfold ret at 1.
    unfold bind at 1. unfold index at 1.
    destruct nv as [|x nv].
    { rewrite lookup_ge_None_2 by (rewrite length_app; cbn; lia). done. }
    rewrite list_lookup_middle by done. unfold ret at 1. unfold ret at 1.
    specialize (IH obs (pre1 ++ [o]) nv (pre2 ++ [x]) (acc ++ [(o.1, x)]) w).
    rewrite !length_app, Nat.add_1_r, <- !app_assoc in IH.
    cbn [app length] in IH. rewrite IH by lia.
    destruct (align obs nv n) as [r|]; [|done].
    by rewrite <- app_assoc.
Qed.

Lemma run_align (obs : Table) (nv : list Float) (n : nat) (w : World) :
  for_each (range n)
    (fun i (nd : list (Sig * Float)) =>
       o <- index obs i ;
       x <- index nv i ;
       ret (nd ++ [(o.1, x)]))
    [] w
  = (match align obs nv n with
     | Some r => inr r
     | None => inl IndexError
     end, w).
Proof. exact (run_align_from n obs [] nv [] [] w eq_refl). Qed.

(** An aligned result lists the signatures of the first [n] observed rows. *)
Lemma align_Some (n : nat) :
  forall (obs : Table) (nv : list Float) r,
    align obs nv n = Some r -> map fst r = map fst (take n obs).
Proof.
  induction n as [|n IH]; intros obs nv r; cbn [align].
  - intros [= <-]. done.
  - destruct obs as [|o obs]; [done |]. destruct nv as [|x nv]; [done |].
    destruct (align obs nv n) as [r'|] eqn:E; [|done].
    intros [= <-]. cbn. f_equal. by apply (IH obs nv).
Qed.

Lemma align_total (n : nat) :
  forall (obs : Table) (nv : list Float),
    (n <= length obs)%nat -> (n <= length nv)%nat ->
    exists r, align obs nv n = Some r.
Proof.
  induction n as [|n IH]; intros obs nv Ho Hn; cbn [align]; [by eexists |].
  destruct obs as [|o obs]; [cbn in Ho; lia |].
  destruct nv as [|x nv]; [cbn in Hn; lia |].
  destruct (IH obs nv) as [r ->]; [cbn in *; lia.. |]. by eexists.
Qed.

(** ** The driver *)

Lemma run_unsupported h order R w :
  order <> 3 -> order <> 4 ->
  compute_directed_motifs h order R w
  = (inl (ValueError unsupported_order_msg), log w (preamble h order)).
Proof.
  intros H3 H4. unfold compute_directed_motifs, preamble, log.
  unfold bind at 1. unfold print, emit at 1.
  unfold bind at 1. unfold emit at 1. cbn [rand trace].
  unfold bind at 1.
  rewrite decide_False by done. rewrite decide_False by done.
  unfold raise. by rewrite <- app_assoc.
Qed.

Lemma run_supported h order R w :
  order = 3 \/ order = 4 ->
  compute_directed_motifs h order R w =
  let src := get_edges h None in
  let obs_edges := get_edges h (Some order) in
  let pre := preamble h order ++ classify_events order obs_edges in
  match draws (Z.to_nat R) src (rand w) with
  | (inr ess, s') =>
      (finish (classify order obs_edges) (map (classify order) ess),
       mkWorld s' (trace w ++ pre ++ rounds_events order src 0 ess))
  | (inl (e, drawn), s') =>
      (inl (CollaboratorError e),
       mkWorld s'
         (trace w ++ pre ++ rounds_events order src 0 drawn
            ++ failed_round_events order src (length drawn)))
  end.
Proof.
  intros Hord. unfold compute_directed_motifs.
  change (if decide (order = 3)
          then _motifs_order_3 (get_edges h (Some order))
          else if decide (order = 4)
               then _motifs_order_4 (get_edges h (Some order))
               else raise (ValueError unsupported_order_msg))
    with (observed_dispatch order (get_edges h (Some order))).
  unfold bind at 1. unfold print, emit at 1.
  unfold bind at 1. unfold emit at 1. cbn [rand trace].
  unfold bind at 1. rewrite run_dispatch by done.
  unfold bind at 1. unfold range.
  pose proof (run_rounds h order (Z.to_nat R) Hord 0 []
                (log (mkWorld (rand w)
                        ((trace w ++ [Printed (LHypergraph h)])
                           ++ [Printed (LObserved order)]))
                   (classify_events order (get_edges h (Some order)))))
    as Hrounds.
  unfold round_body, print in Hrounds. rewrite Hrounds. clear Hrounds.
  cbn [log rand trace]. unfold preamble.
  destruct (draws (Z.to_nat R) (get_edges h None) (rand w))
    as [[[e drawn]|ess] s'].
  - cbn zeta. rewrite <- !app_assoc. done.
  - unfold bind at 1. pose proof run_align as Ha. unfold range in Ha.
    rewrite Ha. cbn [app]. unfold finish. cbn zeta.
    destruct (align _ _ _); unfold ret; rewrite <- !app_assoc; done.
Qed.

(** ** Reading the trace *)

Lemma full_inputs_app evs1 evs2 :
  full_inputs (evs1 ++ evs2) = full_inputs evs1 ++ full_inputs evs2.
Proof. apply omap_app. Qed.

Lemma not_full_inputs_app evs1 evs2 :
  not_full_inputs (evs1 ++ evs2)
  = not_full_inputs evs1 ++ not_full_inputs evs2.
Proof. apply omap_app. Qed.

Lemma config_inputs_app evs1 evs2 :
  config_inputs (evs1 ++ evs2) = config_inputs evs1 ++ config_inputs evs2.
Proof. apply omap_app. Qed.

Lemma full_inputs_classify order es :
  full_inputs (classify_events order es) = [es].
Proof. unfold classify_events. by destruct (decide (order = 3)). Qed.

Lemma config_inputs_classify order es :
  config_inputs (classify_events order es) = [].
Proof. unfold classify_events. by destruct (decide (order = 3)). Qed.

Lemma full_inputs_rounds order src a ess :
  full_inputs (rounds_events order src a ess) = ess.
Proof.
  revert a. induction ess as [|e1 ess IH]; intros a; [done |].
  cbn [rounds_events]. change (full_inputs (?x :: ?y :: ?l)) with (full_inputs l).
  by rewrite full_inputs_app, full_inputs_classify, IH.
Qed.

Lemma config_inputs_rounds order src a ess :
  config_inputs (rounds_events order src a ess) = replicate (length ess) src.
Proof.
  revert a. induction ess as [|e1 ess IH]; intros a; [done |].
  cbn [rounds_events length replicate].
  change (config_inputs (?x :: CallConfigModel src :: ?l))
    with (src :: config_inputs l).
  by rewrite config_inputs_app, config_inputs_classify, IH.
Qed.

Lemma not_full_inputs_rounds3 src a ess :
  not_full_inputs (rounds_events 3 src a ess) = [].
Proof.
  revert a. induction ess as [|e1 ess IH]; intros a; [done |].
  cbn [rounds_events].
  change (not_full_inputs (?x :: ?y :: ?l)) with (not_full_inputs l).
  by rewrite not_full_inputs_app, IH.
Qed.

Lemma draws_length n src :
  forall s ess s', draws n src s = (inr ess, s') -> length ess = n.
Proof.
  induction n as [|n IH]; intros s ess s'; cbn [draws].
  - by intros [= <- _].
  - destruct (directed_configuration_model src s) as [[e|e1] s1]; [done |].
    destruct (draws n src s1) as [[[e drawn]|rest] s2] eqn:E; [done |].
    intros [= <- _]. cbn. f_equal. by eapply IH.
Qed.

Lemma draws_failed_length n src :
  forall s e drawn s',
    draws n src s = (inl (e, drawn), s') -> (length drawn < n)%nat.
Proof.
  induction n as [|n IH]; intros s e drawn s'; cbn [draws]; [done |].
  destruct (directed_configuration_model src s) as [[e0|e1] s1].
  - intros [= _ <- _]. cbn. lia.
  - destruct (draws n src s1) as [[[e2 drawn2]|rest] s2] eqn:E; [|done].
    intros [= _ <- _]. cbn. apply IH in E. lia.
Qed.

(** A call that returns an output was made with a supported order. *)
Lemma returns_supported h order R w out w' :
  compute_directed_motifs h order R w = (inr out, w') ->
  order = 3 \/ order = 4.
Proof.
  intros Hrun. destruct (decide (order = 3)) as [|H3]; [by left |].
  destruct (decide (order = 4)) as [|H4]; [by right |].
  by rewrite run_unsupported in Hrun.
Qed.

(** What a returned output holds, and the trace behind it. *)
Lemma returns_inv h order R w out w' :
  compute_directed_motifs h order R w = (inr out, w') ->
  exists ess,
    draws (Z.to_nat R) (get_edges h None) (rand w) = (inr ess, rand w')
    /\ finish (classify order (get_edges h (Some order)))
         (map (classify order) ess) = inr out
    /\ trace w' =
       trace w ++ (preamble h order
                     ++ classify_events order (get_edges h (Some order)))
         ++ rounds_events order (get_edges h None) 0 ess.
Proof.
  intros Hrun. pose proof (returns_supported _ _ _ _ _ _ Hrun) as Hord.
  rewrite run_supported in Hrun by done. cbn zeta in Hrun.
  destruct (draws (Z.to_nat R) (get_edges h None) (rand w))
    as [[[e drawn]|ess] s']; [done |].
  injection Hrun as Hfin <-. by exists ess.
Qed.

Lemma finish_inv obs results out :
  finish obs results = inr out ->
  observed out = obs /\ config_model out = results
  /\ align obs (norm_vector (directed_diff_sum obs results))
       (length (directed_diff_sum obs results)) = Some (norm_delta out).
Proof.
  unfold finish. cbn zeta. destruct (align _ _ _) as [nd|]; [|done].
  by intros [= <-].
Qed.

End Facts.

(** * The claims *)

Section Claims.
Context {C : Collaborators}.

(** C8. At order 3 classification is the full pass alone: running
    [_motifs_order_3] always returns exactly the rows of the one full-pass
    call it makes, no not-full call appears in its trace, and the [observed]
    entry of any output of the driver at order 3 is the full pass's rows on
    the order-filtered edge list. *)
Theorem order3_is_the_full_pass_only (edges : EdgeList) (w : World) :
  (exists evs,
      _motifs_order_3 edges w
      = (inr (_directed_motifs_ho_full edges 3).1, log w evs)
      /\ full_inputs evs = [edges]
      /\ not_full_inputs evs = [])
  /\ (forall h R out w',
        compute_directed_motifs h 3 R w = (inr out, w') ->
        observed out
        = (_directed_motifs_ho_full (get_edges h (Some 3)) 3).1
        /\ exists evs, trace w' = trace w ++ evs
                       /\ not_full_inputs evs = []).
Proof.
  split.
  - exists (events3 edges). by rewrite run_motifs_order_3.
  - intros h R out w' Hrun.
    apply returns_inv in Hrun as (ess & _ & Hfin & Htr).
    apply finish_inv in Hfin as (Hobs & _ & _). split; [done |].
    eexists. split; [exact Htr |].
    by rewrite !not_full_inputs_app, not_full_inputs_rounds3.
Qed.

(** C9. Classification has no hidden state: the table either classifier
    returns for an edge list is the same whatever the world it is run in
    (random state, trace so far), and the [observed] tables of two calls of
    the driver on the same hypergraph and order are identical, whatever the
    random state and the number of rounds. *)
Theorem classification_is_deterministic (edges : EdgeList) (w1 w2 : World) :
  (_motifs_order_3 edges w1).1 = (_motifs_order_3 edges w2).1
  /\ (_motifs_order_4 edges w1).1 = (_motifs_order_4 edges w2).1
  /\ (forall h order R1 R2 out1 out2,
        (compute_directed_motifs h order R1 w1).1 = inr out1 ->
        (compute_directed_motifs h order R2 w2).1 = inr out2 ->
        observed out1 = observed out2).
Proof.
  split_and!.
  - by rewrite !run_motifs_order_3.
  - by rewrite !run_motifs_order_4.
  - intros h order R1 R2 out1 out2 H1 H2.
    destruct (compute_directed_motifs h order R1 w1) as [r1 w1'] eqn:E1.
    destruct (compute_directed_motifs h order R2 w2) as [r2 w2'] eqn:E2.
    cbn in H1, H2. subst r1 r2.
    apply returns_inv in E1 as (? & _ & Hf1 & _).
    apply returns_inv in E2 as (? & _ & Hf2 & _).
    apply finish_inv in Hf1 as (-> & _). apply finish_inv in Hf2 as (-> & _).
    done.
Qed.

(** C10. Leaving [runs_config_model] out is the call with 10 rounds: the
    two calls are the same computation, and an output obtained that way
    holds 10 configuration-model tables, from 10 calls of the configuration
    model. *)
Theorem runs_config_model_defaults_to_10 h (order : option Z) (w : World) :
  compute_directed_motifs_kw h order None w
  = compute_directed_motifs h (default 3 order) 10 w
  /\ (forall out w',
        compute_directed_motifs_kw h order None w = (inr out, w') ->
        length (config_model out) = 10%nat
        /\ exists evs, trace w' = trace w ++ evs
                       /\ length (config_inputs evs) = 10%nat).
Proof.
  split; [done |]. unfold compute_directed_motifs_kw. cbn [default].
  intros out w' Hrun.
  apply returns_inv in Hrun as (ess & Hdraws & Hfin & Htr).
  apply draws_length in Hdraws.
  apply finish_inv in Hfin as (_ & -> & _). split.
  - by rewrite length_map, Hdraws.
  - eexists. split; [exact Htr |].
    rewrite !config_inputs_app, config_inputs_rounds, config_inputs_classify.
    cbn. by rewrite length_replicate, Hdraws.
Qed.

(** C3. With an order other than 3 and 4 the driver raises its
    [ValueError] after the two opening prints and nothing else: no classifier
    call, no configuration-model call, the random state untouched.  With
    order 3 or 4 the result is never that error. *)
Theorem unsupported_order_raises h (order R : Z) (w : World) :
  (order <> 3 -> order <> 4 ->
   compute_directed_motifs h order R w
   = (inl (ValueError unsupported_order_msg), log w (preamble h order))
   /\ full_inputs (preamble h order) = []
   /\ not_full_inputs (preamble h order) = []
   /\ config_inputs (preamble h order) = [])
  /\ (order = 3 \/ order = 4 ->
      forall msg,
        (compute_directed_motifs h order R w).1 <> inl (ValueError msg)).
Proof.
  split.
  - intros H3 H4. by rewrite run_unsupported.
  - intros Hord msg. rewrite run_supported by done. cbn zeta.
    destruct (draws _ _ _) as [[[e drawn]|ess] s']; cbn [fst]; [done |].
    unfold finish. cbn zeta. by destruct (align _ _ _).
Qed.

(** C6. When a call of the configuration model raises, the driver's result
    is that very exception and no output.  The configuration model was
    called once per round up to and including the failing call, which is the
    last event of the trace: it is not called again, and the classifier ran
    only on the observed edge list and on the edge lists drawn before the
    failure. *)
Theorem config_model_failure_propagates h (order R : Z) (w : World)
  (e : CollabExn) (drawn : list EdgeList) (s' : RandState) :
  order = 3 \/ order = 4 ->
  draws (Z.to_nat R) (get_edges h None) (rand w) = (inl (e, drawn), s') ->
  exists evs,
    compute_directed_motifs h order R w
    = (inl (CollaboratorError e), mkWorld s' (trace w ++ evs))
    /\ config_inputs evs = replicate (S (length drawn)) (get_edges h None)
    /\ full_inputs evs = get_edges h (Some order) :: drawn
    /\ last evs = Some (CallConfigModel (get_edges h None)).
Proof.
  intros Hord Hdraws. rewrite run_supported by done. cbn zeta.
  rewrite Hdraws. eexists. split; [reflexivity |]. split_and!.
  - rewrite replicate_S_end, !config_inputs_app, config_inputs_rounds,
      config_inputs_classify. done.
  - rewrite !full_inputs_app, full_inputs_rounds, full_inputs_classify.
    cbn. by rewrite app_nil_r.
  - unfold failed_round_events. rewrite !app_assoc.
    change [?x; ?y] with ([x] ++ [y]). rewrite app_assoc. apply last_snoc.
Qed.

(** C7. An output of a call with [runs_config_model = R >= 1] has exactly
    [R] configuration-model tables, the i-th being the classification of the
    i-th edge list the configuration model returned; and the call does return
    an output when all [R] draws succeed and the deviation helpers keep the
    rows aligned. *)
Theorem config_model_has_one_table_per_round h (order R : Z) (w : World) :
  1 <= R ->
  (forall out w',
      compute_directed_motifs h order R w = (inr out, w') ->
      Z.of_nat (length (config_model out)) = R
      /\ exists ess,
          draws (Z.to_nat R) (get_edges h None) (rand w) = (inr ess, rand w')
          /\ config_model out = map (classify order) ess)
  /\ (order = 3 \/ order = 4 ->
      deviation_helpers_aligned ->
      forall ess s',
        draws (Z.to_nat R) (get_edges h None) (rand w) = (inr ess, s') ->
        exists out w', compute_directed_motifs h order R w = (inr out, w')).
Proof.
  intros HR. split.
  - intros out w' Hrun.
    apply returns_inv in Hrun as (ess & Hdraws & Hfin & _).
    apply finish_inv in Hfin as (_ & -> & _). split.
    + rewrite length_map, (draws_length _ _ _ _ _ Hdraws). lia.
    + by exists ess.
  - intros Hord [Hdiff Hnorm] ess s' Hdraws.
    rewrite run_supported by done. cbn zeta. rewrite Hdraws.
    unfold finish. cbn zeta.
    destruct (align_total
                (length (directed_diff_sum
                           (classify order (get_edges h (Some order)))
                           (map (classify order) ess)))
                (classify order (get_edges h (Some order)))
                (norm_vector
                   (directed_diff_sum
                      (classify order (get_edges h (Some order)))
                      (map (classify order) ess)))) as [nd ->].
    + by rewrite Hdiff.
    + by rewrite Hnorm.
    + by eexists _, _.
Qed.

(** C2. With deviation helpers that return one entry per observed row,
    [norm_delta] of any output lists exactly the signatures of [observed],
    in the same order and so in the same number; and a call with a supported
    order either returns such an output or ends in an exception of the
    configuration model. *)
Theorem norm_delta_is_aligned_with_observed h (order R : Z) (w : World) :
  deviation_helpers_aligned ->
  1 <= R ->
  (forall out w',
      compute_directed_motifs h order R w = (inr out, w') ->
      map fst (norm_delta out) = map fst (observed out)
      /\ length (norm_delta out) = length (observed out))
  /\ (order = 3 \/ order = 4 ->
      (exists out, (compute_directed_motifs h order R w).1 = inr out)
      \/ (exists e,
            (compute_directed_motifs h order R w).1
            = inl (CollaboratorError e))).
Proof.
  intros [Hdiff Hnorm] HR. split.
  - intros out w' Hrun.
    apply returns_inv in Hrun as (ess & _ & Hfin & _).
    apply finish_inv in Hfin as (Hobs & _ & Hal).
    rewrite Hdiff in Hal. apply align_Some in Hal.
    rewrite take_ge in Hal by done. rewrite Hobs.
    split; [done |]. by rewrite <- (length_map fst), Hal, length_map.
  - intros Hord. rewrite run_supported by done. cbn zeta.
    destruct (draws _ _ _) as [[[e drawn]|ess] s']; cbn [fst].
    + right. by exists e.
    + left. unfold finish. cbn zeta.
      destruct (align_total
                  (length (directed_diff_sum
                             (classify order (get_edges h (Some order)))
                             (map (classify order) ess)))
                  (classify order (get_edges h (Some order)))
                  (norm_vector
                     (directed_diff_sum
                        (classify order (get_edges h (Some order)))
                        (map (classify order) ess)))) as [nd ->].
      * by rewrite Hdiff.
      * by rewrite Hnorm.
      * by eexists.
Qed.

(** C4. In any call that returns an output, the full pass was run first on
    [get_edges(up_to=order)] and then, round after round, on exactly the edge
    lists the configuration model returned; the configuration model was
    given [get_edges()] in every round; [observed] is the classification of
    the order-filtered list and the i-th configuration-model table the
    classification of the i-th drawn list as it was returned. *)
Theorem observed_is_filtered_rounds_are_not h (order R : Z) (w : World)
  (out : Output) (w' : World) :
  compute_directed_motifs h order R w = (inr out, w') ->
  exists ess evs,
    draws (Z.to_nat R) (get_edges h None) (rand w) = (inr ess, rand w')
    /\ trace w' = trace w ++ evs
    /\ config_inputs evs = replicate (Z.to_nat R) (get_edges h None)
    /\ full_inputs evs = get_edges h (Some order) :: ess
    /\ observed out = classify order (get_edges h (Some order))
    /\ config_model out = map (classify order) ess.
Proof.
  intros Hrun. apply returns_inv in Hrun as (ess & Hdraws & Hfin & Htr).
  apply finish_inv in Hfin as (Hobs & Hcm & _).
  exists ess. eexists. split_and!; [done | exact Htr | | | done | done].
  - rewrite !config_inputs_app, config_inputs_rounds, config_inputs_classify.
    cbn. by rewrite (draws_length _ _ _ _ _ Hdraws).
  - rewrite !full_inputs_app, full_inputs_rounds, full_inputs_classify. done.
Qed.

End Claims.

Section OrderFourPasses.
Context {C : Collaborators}.
Variable Subset : Type.
Variable in_visited : Subset -> Visited -> bool.
Variable tallied_by_full : EdgeList -> Z -> Subset -> Prop.
Variable candidate : EdgeList -> Z -> Subset -> Prop.
Variable tallied_by_not_full : EdgeList -> Z -> Visited -> Subset -> Prop.


End OrderFourPasses.

(** * The claims on concrete hypergraphs *)

Module SampleFacts.
Import Sample.

Lemma helpers_aligned : deviation_helpers_aligned (C := collaborators).
Proof.
  split.
  - intros obs cms. cbn. unfold diff_sum. apply length_map.
  - intros d. done.
Qed.



End SampleFacts.

Lemma norm_delta_is_aligned_with_observed_witness :
  deviation_helpers_aligned (C := Sample.collaborators)
  /\ 1 <= 2
  /\ exists out w',
      compute_directed_motifs (C := Sample.collaborators)
        Sample.hg1 4 2 Sample.w0 = (inr out, w')
      /\ map fst (norm_delta out) = map fst (observed out)
      /\ length (norm_delta out) = length (observed out).
Proof.
  split; [exact SampleFacts.helpers_aligned |]. split; [lia |].
  assert (exists out w',
             compute_directed_motifs (C := Sample.collaborators)
               Sample.hg1 4 2 Sample.w0 = (inr out, w'))
    as (out & w' & Hrun) by (eexists _, _; vm_compute; reflexivity).
  exists out, w'. split; [exact Hrun |].
  exact (proj1 (norm_delta_is_aligned_with_observed
                  (C := Sample.collaborators) Sample.hg1 4 2 Sample.w0
                  SampleFacts.helpers_aligned ltac:(lia)) out w' Hrun).
Defined.

Lemma unsupported_order_raises_witness :
  (5 <> 3 /\ 5 <> 4
   /\ compute_directed_motifs (C := Sample.collaborators)
        Sample.hg2 5 1 Sample.w0
      = (inl (ValueError unsupported_order_msg),
         log Sample.w0 (preamble Sample.hg2 5)))
  /\ (3 = 3 \/ 3 = 4)
  /\ (forall msg,
        (compute_directed_motifs (C := Sample.collaborators)
           Sample.hg2 3 1 Sample.w0).1 <> inl (ValueError msg)).
Proof.
  split_and!; [lia | lia | | by left |].
  - apply (proj1 (unsupported_order_raises (C := Sample.collaborators)
                    Sample.hg2 5 1 Sample.w0)); lia.
  - apply (proj2 (unsupported_order_raises (C := Sample.collaborators)
                    Sample.hg2 3 1 Sample.w0)). by left.
Defined.

Lemma observed_is_filtered_rounds_are_not_witness :
  exists out w',
    compute_directed_motifs (C := Sample.collaborators)
      Sample.hg1 3 2 Sample.w0 = (inr out, w')
    /\ exists ess evs,
        draws (C := Sample.collaborators) (Z.to_nat 2)
          (get_edges Sample.hg1 None) (rand Sample.w0) = (inr ess, rand w')
        /\ trace w' = trace Sample.w0 ++ evs
        /\ config_inputs evs
           = replicate (Z.to_nat 2) (get_edges Sample.hg1 None)
        /\ full_inputs evs = get_edges Sample.hg1 (Some 3) :: ess
        /\ observed out = classify 3 (get_edges Sample.hg1 (Some 3))
        /\ config_model out = map (classify 3) ess.
Proof.
  assert (exists out w',
             compute_directed_motifs (C := Sample.collaborators)
               Sample.hg1 3 2 Sample.w0 = (inr out, w'))
    as (out & w' & Hrun) by (eexists _, _; vm_compute; reflexivity).
  exists out, w'. split; [exact Hrun |].
  exact (observed_is_filtered_rounds_are_not (C := Sample.collaborators)
           Sample.hg1 3 2 Sample.w0 out w' Hrun).
Defined.


Lemma config_model_failure_propagates_witness :
  (3 = 3 \/ 3 = 4)
  /\ draws (C := Sample.collaborators) (Z.to_nat 3)
       (get_edges Sample.hg1 None) (rand Sample.w0)
     = (inl (Sample.infeasible, [rev Sample.h1; rev Sample.h1]), 0%nat)
  /\ exists evs,
      compute_directed_motifs (C := Sample.collaborators)
        Sample.hg1 3 3 Sample.w0
      = (inl (CollaboratorError Sample.infeasible),
         Sample.world_of 0 (trace Sample.w0 ++ evs))
      /\ config_inputs evs = replicate 3 (get_edges Sample.hg1 None)
      /\ full_inputs evs
         = get_edges Sample.hg1 (Some 3) :: [rev Sample.h1; rev Sample.h1]
      /\ last evs = Some (CallConfigModel (get_edges Sample.hg1 None)).
Proof.
  split; [by left |]. split; [vm_compute; reflexivity |].
  apply (config_model_failure_propagates (C := Sample.collaborators)
           Sample.hg1 3 3 Sample.w0 Sample.infeasible
           [rev Sample.h1; rev Sample.h1] 0%nat).
  - by left.
  - vm_compute; reflexivity.
Defined.

Lemma config_model_has_one_table_per_round_witness :
  1 <= 2
  /\ deviation_helpers_aligned (C := Sample.collaborators)
  /\ exists out w',
      compute_directed_motifs (C := Sample.collaborators)
        Sample.hg1 4 2 Sample.w0 = (inr out, w')
      /\ Z.of_nat (length (config_model out)) = 2
      /\ exists ess,
          draws (C := Sample.collaborators) (Z.to_nat 2)
            (get_edges Sample.hg1 None) (rand Sample.w0) = (inr ess, rand w')
          /\ config_model out = map (classify 4) ess.
Proof.
  split; [lia |]. split; [exact SampleFacts.helpers_aligned |].
  destruct (proj2 (config_model_has_one_table_per_round
                     (C := Sample.collaborators) Sample.hg1 4 2 Sample.w0
                     ltac:(lia))
              (or_intror eq_refl) SampleFacts.helpers_aligned
              [rev Sample.h1; rev Sample.h1] 0%nat eq_refl)
    as (out & w' & Hrun).
  exists out, w'. split; [exact Hrun |].
  exact (proj1 (config_model_has_one_table_per_round
                  (C := Sample.collaborators) Sample.hg1 4 2 Sample.w0
                  ltac:(lia)) out w' Hrun).
Defined.

Lemma order3_is_the_full_pass_only_witness :
  exists out w',
    compute_directed_motifs (C := Sample.collaborators)
      Sample.hg2 3 1 Sample.w0 = (inr out, w')
    /\ observed out
       = (Sample.ho_full (Sample.edges_of Sample.h2 (Some 3)) 3).1
    /\ exists evs, trace w' = trace Sample.w0 ++ evs
                   /\ not_full_inputs evs = [].
Proof.
  assert (exists out w',
             compute_directed_motifs (C := Sample.collaborators)
               Sample.hg2 3 1 Sample.w0 = (inr out, w'))
    as (out & w' & Hrun) by (eexists _, _; vm_compute; reflexivity).
  exists out, w'. split; [exact Hrun |].
  exact (proj2 (order3_is_the_full_pass_only (C := Sample.collaborators)
                  Sample.h2 Sample.w0) Sample.hg2 1 out w' Hrun).
Defined.

Lemma classification_is_deterministic_witness :
  exists out1 out2,
    (compute_directed_motifs (C := Sample.collaborators)
       Sample.hg2 3 1 Sample.w0).1 = inr out1
    /\ (compute_directed_motifs (C := Sample.collaborators)
          Sample.hg2 3 1 Sample.w1).1 = inr out2
    /\ observed out1 = observed out2.
Proof.
  eexists _, _. split; [vm_compute; reflexivity |].
  split; [vm_compute; reflexivity |].
  apply (proj2 (proj2 (classification_is_deterministic
                         (C := Sample.collaborators)
                         Sample.h2 Sample.w0 Sample.w1))
           Sample.hg2 3 1 1); vm_compute; reflexivity.
Defined.

Lemma runs_config_model_defaults_to_10_witness :
  exists out w',
    compute_directed_motifs_kw (C := Sample.collaborators)
      Sample.hg2 (Some 3) None Sample.w1 = (inr out, w')
    /\ length (config_model out) = 10%nat
    /\ exists evs, trace w' = trace Sample.w1 ++ evs
                   /\ length (config_inputs evs) = 10%nat.
Proof.
  assert (exists out w',
             compute_directed_motifs_kw (C := Sample.collaborators)
               Sample.hg2 (Some 3) None Sample.w1 = (inr out, w'))
    as (out & w' & Hrun) by (eexists _, _; vm_compute; reflexivity).
  exists out, w'. split; [exact Hrun |].
  exact (proj2 (runs_config_model_defaults_to_10
                  (C := Sample.collaborators)
                  Sample.hg2 (Some 3) Sample.w1) out w' Hrun).
Defined.

(** * Further properties of the code *)

Module PyDictMore.
Section PyDictMore.
Context {K V : Type} `{EqDecision K}.
Implicit Types (d : PyDict.t K V) (k : K) (v : V) (rows : list (K * V)).

Lemma get_None_iff k d : PyDict.get k d = None <-> k ∉ PyDict.keys d.
Proof.
  induction d as [|[k' v'] d IH]; cbn.
  - split; [intros _; apply not_elem_of_nil | done].
  - rewrite not_elem_of_cons. destruct (decide (k = k')) as [->|Hne].
    + split; [done | by intros [? _]].
    + rewrite IH. tauto.
Qed.

Lemma get_Some_elem k v d : PyDict.get k d = Some v -> (k, v) ∈ d.
Proof.
  induction d as [|[k' v'] d IH]; cbn; [done |].
  destruct (decide (k = k')) as [->|Hne].
  - intros [= ->]. left.
  - intros Hg. right. by apply IH.
Qed.

Lemma elem_get k v d : PyDict.wf d -> (k, v) ∈ d -> PyDict.get k d = Some v.
Proof.
  unfold PyDict.wf. induction d as [|[k' v'] d IH]; cbn; intros Hwf Hin.
  - by apply elem_of_nil in Hin.
  - apply NoDup_cons in Hwf as [Hk' Hwf].
    apply elem_of_cons in Hin as [[= -> ->]|Hin].
    + by rewrite decide_True.
    + rewrite decide_False; [by apply IH |].
      intros ->. apply Hk'. apply list_elem_of_fmap. by exists (k', v).
Qed.

Lemma set_fresh k v d :
  k ∉ PyDict.keys d -> PyDict.set k v d = d ++ [(k, v)].
Proof.
  induction d as [|[k' v'] d IH]; cbn; [done |].
  rewrite not_elem_of_cons. intros [Hne Hk].
  rewrite decide_False by done. by rewrite IH.
Qed.

Lemma length_set k v d : (length (PyDict.set k v d) <= S (length d))%nat.
Proof.
  induction d as [|[k' v'] d IH]; cbn; [lia |].
  destruct (decide (k = k')); cbn; lia.
Qed.

Lemma length_fold_set rows d :
  (length (fold_left (fun d p => PyDict.set p.1 p.2 d) rows d)
   <= length d + length rows)%nat.
Proof.
  revert d. induction rows as [|p rows IH]; intros d; cbn; [lia |].
  etrans; [apply IH |]. pose proof (length_set p.1 p.2 d). lia.
Qed.

Lemma wf_fold_set rows d :
  PyDict.wf d ->
  PyDict.wf (fold_left (fun d p => PyDict.set p.1 p.2 d) rows d).
Proof.
  revert d. induction rows as [|p rows IH]; intros d Hd; cbn; [done |].
  apply IH, PyDictFacts.wf_set, Hd.
Qed.

(** Rows with pairwise distinct keys, none of them in the dictionary yet,
    are stored one after the other. *)
Lemma fold_set_concat rows d :
  NoDup (PyDict.keys d ++ map fst rows) ->
  fold_left (fun d p => PyDict.set p.1 p.2 d) rows d = d ++ rows.
Proof.
  revert d. induction rows as [|[k v] rows IH]; intros d Hnd; cbn.
  - by rewrite app_nil_r.
  - assert (k ∉ PyDict.keys d) as Hk.
    { apply NoDup_app in Hnd as (_ & Hdis & _).
      intros Hin. apply (Hdis k Hin). left. }
    rewrite set_fresh by done. rewrite IH.
    + by rewrite <- app_assoc.
    + unfold PyDict.keys in *. rewrite map_app, <- app_assoc. exact Hnd.
Qed.

(** The value stored under a key is that of the last row carrying it. *)
Lemma get_fold_last k rows d :
  PyDict.get k (fold_left (fun d p => PyDict.set p.1 p.2 d) rows d) =
  match last (filter (fun p => p.1 = k) rows) with
  | Some p => Some p.2
  | None => PyDict.get k d
  end.
Proof.
  induction rows as [|[k' v'] rows IH] using rev_ind; [done |].
  rewrite fold_left_app, filter_app. cbn [fold_left fst snd].
  destruct (decide (k' = k)) as [->|Hne].
  - rewrite filter_cons_True by done.
    rewrite filter_nil, last_snoc. cbn. apply PyDictFacts.get_set_eq.
  - rewrite filter_cons_False by done. rewrite filter_nil, app_nil_r.
    rewrite PyDictFacts.get_set_ne by done. exact IH.
Qed.

Lemma keys_fold_set rows d :
  PyDict.keys (fold_left (fun d p => PyDict.set p.1 p.2 d) rows d) =
  fold_left (fun seen k => if decide (k ∈ seen) then seen else seen ++ [k])
    (map fst rows) (PyDict.keys d).
Proof.
  revert d. induction rows as [|[k v] rows IH]; intros d; [done |].
  cbn [fold_left map fst snd]. by rewrite IH, PyDictFacts.keys_set.
Qed.

Lemma keys_dict rows :
  PyDict.keys (PyBuiltins.dict rows)
  = PyBuiltins.first_occurrences (map fst rows).
Proof. apply keys_fold_set. Qed.

(** Scanning for first occurrences only ever appends, and appends exactly
    the elements not seen before. *)
Lemma first_occurrences_from (l seen : list K) :
  exists extra,
    fold_left (fun seen k => if decide (k ∈ seen) then seen else seen ++ [k])
      l seen = seen ++ extra
    /\ forall x, x ∈ extra <-> x ∈ l /\ x ∉ seen.
Proof.
  revert seen. induction l as [|k l IH]; intros seen; cbn.
  - exists []. rewrite app_nil_r. split; [done |].
    intros x. split; [by intros ?%elem_of_nil | by intros [?%elem_of_nil _]].
  - destruct (decide (k ∈ seen)) as [Hin|Hnin].
    + destruct (IH seen) as (extra & -> & Hex). exists extra.
      split; [done |]. intros x. rewrite Hex, elem_of_cons.
      split; [tauto |]. intros [[->|?] ?]; done.
    + destruct (IH (seen ++ [k])) as (extra & -> & Hex).
      exists (k :: extra). rewrite <- app_assoc. split; [done |].
      intros x. rewrite !elem_of_cons, Hex, elem_of_app,
        list_elem_of_singleton.
      destruct (decide (x = k)) as [->|Hne]; tauto.
Qed.

Lemma first_occurrences_app (l1 l2 : list K) :
  exists extra,
    PyBuiltins.first_occurrences (l1 ++ l2)
    = PyBuiltins.first_occurrences l1 ++ extra
    /\ forall x, x ∈ extra <-> x ∈ l2 /\ x ∉ l1.
Proof.
  unfold PyBuiltins.first_occurrences. rewrite fold_left_app.
  destruct (first_occurrences_from l2
              (fold_left
                 (fun seen k => if decide (k ∈ seen) then seen else seen ++ [k])
                 l1 [])) as (extra & -> & Hex).
  exists extra. split; [done |]. intros x. rewrite Hex.
  destruct (first_occurrences_from l1 []) as (e1 & -> & He1). cbn.
  rewrite He1. pose proof (not_elem_of_nil x). tauto.
Qed.

End PyDictMore.
End PyDictMore.

Section MoreFacts.
Context {C : Collaborators}.

Lemma table4_rows (edges : EdgeList) :
  table4 edges
  = fold_left (fun (d : PyDict.t Sig Z) p => PyDict.set p.1 p.2 d)
      (full4 edges ++ not_full4 edges) PyDict.empty.
Proof. unfold table4, merge_passes, assign_all. by rewrite fold_left_app. Qed.

Lemma value_motifs_order_4 (edges : EdgeList) (w : World) :
  (_motifs_order_4 edges w).1 = inr (table4 edges).
Proof. by rewrite run_motifs_order_4. Qed.

Lemma align_zip (n : nat) :
  forall (obs : Table) (nv : list Float) r,
    align obs nv n = Some r ->
    r = zip (map fst (take n obs)) (take n nv)
    /\ (n <= length obs)%nat /\ (n <= length nv)%nat.
Proof.
  induction n as [|n IH]; intros obs nv r; cbn [align].
  - intros [= <-]. rewrite !take_0. cbn. split_and!; [done | lia | lia].
  - destruct obs as [|o obs]; [done |]. destruct nv as [|x nv]; [done |].
    destruct (align obs nv n) as [r'|] eqn:E; [|done].
    intros [= <-]. destruct (IH obs nv r' E) as (-> & Ho & Hn).
    cbn. split_and!; [done | lia | lia].
Qed.

Lemma align_None (n : nat) :
  forall (obs : Table) (nv : list Float),
    align obs nv n = None <->
    (length obs < n)%nat \/ (length nv < n)%nat.
Proof.
  induction n as [|n IH]; intros obs nv; cbn [align].
  - split; [done | lia].
  - destruct obs as [|o obs]; [cbn; split; [lia | done] |].
    destruct nv as [|x nv]; [cbn; split; [lia | done] |].
    specialize (IH obs nv). cbn [length].
    destruct (align obs nv n) as [r|].
    + split; [done |]. intros H. assert (Some r = None) as [=]; apply IH; lia.
    + split; [|done]. intros _. destruct IH as [IH _].
      specialize (IH eq_refl). lia.
Qed.

Lemma not_full_inputs_classify4 es :
  not_full_inputs (classify_events 4 es)
  = [(es, 4, (_directed_motifs_ho_full es 4).2)].
Proof. done. Qed.

Lemma not_full_inputs_rounds4 src a ess :
  not_full_inputs (rounds_events 4 src a ess)
  = map (fun e => (e, 4, (_directed_motifs_ho_full e 4).2)) ess.
Proof.
  revert a. induction ess as [|e1 ess IH]; intros a; [done |].
  cbn [rounds_events map].
  change (not_full_inputs (?x :: ?y :: ?l)) with (not_full_inputs l).
  by rewrite not_full_inputs_app, not_full_inputs_classify4, IH.
Qed.

Lemma step_numbers_app evs1 evs2 :
  step_numbers (evs1 ++ evs2) = step_numbers evs1 ++ step_numbers evs2.
Proof. apply omap_app. Qed.

Lemma step_numbers_classify order es :
  step_numbers (classify_events order es) = [].
Proof. unfold classify_events. by destruct (decide (order = 3)). Qed.

Lemma step_numbers_rounds order src a ess :
  step_numbers (rounds_events order src a ess)
  = map (fun i => Z.of_nat i + 1) (seq a (length ess)).
Proof.
  revert a. induction ess as [|e1 ess IH]; intros a; [done |].
  cbn [rounds_events length seq map].
  change (step_numbers (Printed (LStep order ?k) :: ?y :: ?l))
    with (k :: step_numbers l).
  by rewrite step_numbers_app, step_numbers_classify, IH.
Qed.

End MoreFacts.

Section MoreProperties.
Context {C : Collaborators}.

(** X1. Whatever the two passes return, the table of [_motifs_order_4]
    lists every signature once, and has at most as many rows as the two
    passes returned together. *)
Theorem order4_table_has_distinct_signatures (edges : EdgeList) (w : World) :
  exists t,
    (_motifs_order_4 edges w).1 = inr t
    /\ NoDup (map fst t)
    /\ (length t <= length (_directed_motifs_ho_full edges 4).1
                    + length (_directed_motifs_ho_not_full edges 4
                                (_directed_motifs_ho_full edges 4).2).1)%nat.
Proof.
  exists (table4 edges). split; [apply value_motifs_order_4 |]. split.
  - apply wf_merge_passes.
  - rewrite table4_rows.
    etrans; [apply PyDictMore.length_fold_set |].
    rewrite length_app. cbn. done.
Qed.

(** X2. The rows of the order-4 table come in the order in which their
    signatures first appear, the full pass's rows read before the not-full
    pass's: first the signatures of the full pass, then those that only the
    not-full pass reports. *)
Theorem order4_rows_follow_first_appearance (edges : EdgeList) (w : World) :
  exists t extra,
    (_motifs_order_4 edges w).1 = inr t
    /\ map fst t
       = PyBuiltins.first_occurrences
           (map fst (full4 edges ++ not_full4 edges))
    /\ map fst t
       = PyBuiltins.first_occurrences (map fst (full4 edges)) ++ extra
    /\ (forall sg,
          sg ∈ extra <->
          sg ∈ map fst (not_full4 edges) /\ sg ∉ map fst (full4 edges)).
Proof.
  destruct (PyDictMore.first_occurrences_app
              (map fst (full4 edges)) (map fst (not_full4 edges)))
    as (extra & Happ & Hex).
  exists (table4 edges), extra.
  split; [apply value_motifs_order_4 |].
  assert (map fst (table4 edges)
          = PyBuiltins.first_occurrences
              (map fst (full4 edges ++ not_full4 edges))) as Hkeys.
  { rewrite table4_rows. apply PyDictMore.keys_dict. }
  split; [exact Hkeys |]. split; [|exact Hex].
  by rewrite Hkeys, map_app, Happ.
Qed.

(** X3. The count the order-4 table holds for a signature is the count of
    the last row that carries it, the full pass's rows read before the
    not-full pass's; a signature no row carries is absent. *)
Theorem order4_count_is_that_of_the_last_row (edges : EdgeList) (w : World)
  (sg : Sig) :
  exists t,
    (_motifs_order_4 edges w).1 = inr t
    /\ PyDict.get sg t
       = snd <$> last (filter (fun p => p.1 = sg)
                         (full4 edges ++ not_full4 edges)).
Proof.
  exists (table4 edges). split; [apply value_motifs_order_4 |].
  rewrite table4_rows, PyDictMore.get_fold_last.
  by destruct (last _).
Qed.

(** X4. When no signature occurs twice in the rows of the two passes taken
    together, [_motifs_order_4] returns the full pass's rows followed by the
    not-full pass's, unchanged. *)
Theorem order4_distinct_rows_are_concatenated (edges : EdgeList)
  (w : World) :
  NoDup (map fst (full4 edges ++ not_full4 edges)) ->
  (_motifs_order_4 edges w).1 = inr (full4 edges ++ not_full4 edges).
Proof.
  intros Hnd. rewrite value_motifs_order_4, table4_rows.
  by rewrite PyDictMore.fold_set_concat.
Qed.

(** X5. Neither classifier raises, for any rows the pass helpers return:
    the index loops stay in range and every key read back from [mappa] is
    present.  Neither touches the random state. *)
Theorem classifiers_never_raise (edges : EdgeList) (w : World) :
  (exists t evs,
      _motifs_order_3 edges w = (inr t, mkWorld (rand w) (trace w ++ evs)))
  /\ (exists t evs,
        _motifs_order_4 edges w = (inr t, mkWorld (rand w) (trace w ++ evs))).
Proof.
  split.
  - eexists _, _. apply run_motifs_order_3.
  - eexists _, _. apply run_motifs_order_4.
Qed.

(** X6. The driver ends in one of four ways: an output or an [IndexError]
    or an exception of the configuration model, each only with order 3 or 4;
    or the [ValueError] with its fixed message, exactly with any other order.
    [KeyError] and the unbound [m1] of line 87 never occur. *)
Theorem driver_outcomes h (order R : Z) (w : World) :
  match (compute_directed_motifs h order R w).1 with
  | inr _ => order = 3 \/ order = 4
  | inl (ValueError msg) =>
      msg = unsupported_order_msg /\ order <> 3 /\ order <> 4
  | inl IndexError => order = 3 \/ order = 4
  | inl (CollaboratorError _) => order = 3 \/ order = 4
  | inl KeyError => False
  | inl UnboundLocalError => False
  end.
Proof.
  destruct (decide (order = 3 \/ order = 4)) as [Hord|Hord].
  - rewrite run_supported by done. cbn zeta.
    destruct (draws _ _ _) as [[[e drawn]|ess] s']; cbn [fst]; [done |].
    unfold finish. cbn zeta. by destruct (align _ _ _).
  - rewrite run_unsupported by tauto. cbn. tauto.
Qed.

(** X7. With [runs_config_model <= 0] and a supported order no round is
    run: the configuration model is not called, the random state is left as
    it was, the trace ends with the observed classification, and the
    deviation helpers are given an empty list of tables. *)
Theorem no_rounds_when_runs_not_positive h (order R : Z) (w : World) :
  order = 3 \/ order = 4 ->
  R <= 0 ->
  compute_directed_motifs h order R w
  = (finish (classify order (get_edges h (Some order))) [],
     log w (preamble h order
              ++ classify_events order (get_edges h (Some order))))
  /\ config_inputs (preamble h order
                      ++ classify_events order (get_edges h (Some order)))
     = []
  /\ (forall out,
        (compute_directed_motifs h order R w).1 = inr out ->
        config_model out = []).
Proof.
  intros Hord HR. rewrite run_supported by done. cbn zeta.
  replace (Z.to_nat R) with 0%nat by lia. cbn [draws rounds_events map].
  rewrite app_nil_r. split_and!.
  - done.
  - by rewrite config_inputs_app, config_inputs_classify.
  - cbn [fst]. intros out Hfin. by apply finish_inv in Hfin as (_ & -> & _).
Qed.

(** X8. When all draws succeed, the driver raises [IndexError] exactly when
    [directed_diff_sum] returns more entries than there are observed rows or
    than [norm_vector] returns for them; it does so only after every round
    has run. *)
Theorem misaligned_deviations_raise_IndexError h (order R : Z) (w : World)
  (ess : list EdgeList) (s' : RandState) :
  order = 3 \/ order = 4 ->
  draws (Z.to_nat R) (get_edges h None) (rand w) = (inr ess, s') ->
  let obs := classify order (get_edges h (Some order)) in
  let delta := directed_diff_sum obs (map (classify order) ess) in
  ((compute_directed_motifs h order R w).1 = inl IndexError <->
   (length obs < length delta)%nat
   \/ (length (norm_vector delta) < length delta)%nat)
  /\ rand (compute_directed_motifs h order R w).2 = s'
  /\ exists evs,
      trace (compute_directed_motifs h order R w).2 = trace w ++ evs
      /\ length (config_inputs evs) = Z.to_nat R.
Proof.
  intros Hord Hdraws obs delta. rewrite run_supported by done. cbn zeta.
  rewrite Hdraws. cbn [fst snd rand trace]. split_and!.
  - unfold finish. cbn zeta. fold obs. fold delta.
    rewrite <- align_None.
    destruct (align obs (norm_vector delta) (length delta)); split; done.
  - done.
  - eexists. split; [done |].
    rewrite !config_inputs_app, config_inputs_rounds, config_inputs_classify.
    cbn. by rewrite length_replicate, (draws_length _ _ _ _ _ Hdraws).
Qed.

(** X9. [norm_delta] of an output has one entry per entry of
    [directed_diff_sum(observed, config_model)], which are no more than the
    observed rows; the i-th entry pairs the signature of the i-th observed
    row with the i-th value of [norm_vector]. *)
Theorem norm_delta_pairs_positionally h (order R : Z) (w : World)
  (out : Output) (w' : World) :
  compute_directed_motifs h order R w = (inr out, w') ->
  let delta := directed_diff_sum (observed out) (config_model out) in
  norm_delta out
  = zip (map fst (take (length delta) (observed out)))
      (take (length delta) (norm_vector delta))
  /\ length (norm_delta out) = length delta
  /\ (length delta <= length (observed out))%nat
  /\ (length delta <= length (norm_vector delta))%nat.
Proof.
  intros Hrun. apply returns_inv in Hrun as (ess & _ & Hfin & _).
  apply finish_inv in Hfin as (Hobs & Hcm & Hal).
  rewrite Hobs, Hcm. cbn zeta.
  apply align_zip in Hal as (Hnd & Ho & Hn). split_and!; [done | | done..].
  rewrite Hnd, length_zip, length_map, !length_take. lia.
Qed.

(** X10. At order 4 every classification - the observed one and each
    round's - starts its not-full pass from the Visited-State of its own
    full pass on the same edge list; no Visited-State is carried from one
    classification to the next. *)
Theorem order4_visited_state_is_per_classification h (R : Z) (w : World)
  (out : Output) (w' : World) :
  compute_directed_motifs h 4 R w = (inr out, w') ->
  exists ess evs,
    draws (Z.to_nat R) (get_edges h None) (rand w) = (inr ess, rand w')
    /\ trace w' = trace w ++ evs
    /\ full_inputs evs = get_edges h (Some 4) :: ess
    /\ not_full_inputs evs
       = map (fun e => (e, 4, (_directed_motifs_ho_full e 4).2))
           (get_edges h (Some 4) :: ess).
Proof.
  intros Hrun. apply returns_inv in Hrun as (ess & Hdraws & _ & Htr).
  exists ess. eexists. split_and!; [done | exact Htr | |].
  - by rewrite !full_inputs_app, full_inputs_rounds, full_inputs_classify.
  - by rewrite !not_full_inputs_app, not_full_inputs_rounds4,
      not_full_inputs_classify4.
Qed.

(** X11. With a supported order the "Step" lines printed are numbered
    1, 2, ... in order, one per round begun, and the configuration model is
    called once in each of these rounds: all [max(runs_config_model, 0)]
    rounds when every draw succeeds, otherwise up to and including the round
    whose draw raises. *)
Theorem steps_are_numbered_from_one h (order R : Z) (w : World) :
  order = 3 \/ order = 4 ->
  let n := rounds_started
             (draws (Z.to_nat R) (get_edges h None) (rand w)) in
  exists evs,
    trace (compute_directed_motifs h order R w).2 = trace w ++ evs
    /\ step_numbers evs = map (fun i => Z.of_nat i + 1) (seq 0 n)
    /\ length (config_inputs evs) = n
    /\ (n <= Z.to_nat R)%nat.
Proof.
  intros Hord. rewrite run_supported by done. cbn zeta.
  unfold rounds_started.
  destruct (draws _ _ _) as [[[e drawn]|ess] s'] eqn:Hdraws;
    cbn [fst snd trace]; eexists; (split; [reflexivity |]).
  - rewrite !step_numbers_app, !config_inputs_app, step_numbers_rounds,
      step_numbers_classify, config_inputs_rounds, config_inputs_classify.
    split_and!.
    + cbn [app]. rewrite seq_S, map_app. done.
    + cbn. rewrite length_app, length_replicate. cbn. lia.
    + apply draws_failed_length in Hdraws. lia.
  - rewrite !step_numbers_app, !config_inputs_app, step_numbers_rounds,
      step_numbers_classify, config_inputs_rounds, config_inputs_classify.
    split_and!; [done | by cbn; rewrite length_replicate |].
    apply draws_length in Hdraws. lia.
Qed.

(** X12. A call that leaves out both keywords classifies at order 3 with
    10 rounds: [observed] is the full pass's rows on [get_edges(up_to=3)],
    there are 10 tables, each the full pass's rows on the edge list drawn in
    its round, and the not-full pass is never called. *)
Theorem keyword_defaults_are_order_3_and_10_rounds h (w : World)
  (out : Output) (w' : World) :
  compute_directed_motifs_kw h None None w = (inr out, w') ->
  observed out = (_directed_motifs_ho_full (get_edges h (Some 3)) 3).1
  /\ exists ess evs,
      draws 10 (get_edges h None) (rand w) = (inr ess, rand w')
      /\ config_model out
         = map (fun e => (_directed_motifs_ho_full e 3).1) ess
      /\ length (config_model out) = 10%nat
      /\ trace w' = trace w ++ evs
      /\ not_full_inputs evs = [].
Proof.
  unfold compute_directed_motifs_kw. cbn [default]. intros Hrun.
  apply returns_inv in Hrun as (ess & Hdraws & Hfin & Htr).
  apply finish_inv in Hfin as (Hobs & Hcm & _). split; [done |].
  exists ess. eexists. split_and!; [done | done | | exact Htr |].
  - rewrite Hcm, length_map. by apply draws_length in Hdraws.
  - by rewrite !not_full_inputs_app, not_full_inputs_rounds3.
Qed.

End MoreProperties.

Module IncidenceTestFacts.
Section IncidenceTestFacts.
Context {Idx Nd : Type} `{EqDecision Idx} `{EqDecision Nd}.
Implicit Types (mapping : PyDict.t Idx Nd) (i : Idx) (nd : Nd).

Lemma inverse_rows mapping :
  zip (PyBuiltins.values mapping) (PyDict.keys mapping)
  = map (fun p => (p.2, p.1)) mapping.
Proof.
  induction mapping as [|[i nd] mapping IH]; [done |].
  cbn. f_equal. exact IH.
Qed.

Lemma filter_swapped nd mapping :
  filter (fun q : Nd * Idx => q.1 = nd) (map (fun p => (p.2, p.1)) mapping)
  = map (fun p => (p.2, p.1)) (filter (fun p : Idx * Nd => p.2 = nd) mapping).
Proof.
  induction mapping as [|[i nd'] mapping IH]; [done |]. cbn [map].
  destruct (decide (nd' = nd)) as [Heq|Hne].
  - rewrite (filter_cons_True (fun q : Nd * Idx => q.1 = nd)) by done.
    rewrite (filter_cons_True (fun p : Idx * Nd => p.2 = nd)) by done.
    cbn [map]. by rewrite IH.
  - rewrite (filter_cons_False (fun q : Nd * Idx => q.1 = nd)) by done.
    rewrite (filter_cons_False (fun p : Idx * Nd => p.2 = nd)) by done.
    exact IH.
Qed.

Lemma inverse_get nd mapping :
  PyDict.get nd (IncidenceTest.inverse_mapping mapping)
  = fst <$> last (filter (fun p => p.2 = nd) mapping).
Proof.
  unfold IncidenceTest.inverse_mapping, PyBuiltins.dict.
  rewrite PyDictMore.get_fold_last, inverse_rows, filter_swapped.
  rewrite (fmap_last (fun p : Idx * Nd => (p.2, p.1))).
  by destruct (last _).
Qed.

Lemma inverse_get_sound nd i mapping :
  PyDict.wf mapping ->
  PyDict.get nd (IncidenceTest.inverse_mapping mapping) = Some i ->
  PyDict.get i mapping = Some nd.
Proof.
  intros Hwf. rewrite inverse_get.
  destruct (last _) as [[i' nd']|] eqn:Hlast; [|done].
  intros [= <-]. apply last_Some_elem_of in Hlast.
  apply list_elem_of_filter in Hlast as [Hnd Hin]. cbn in Hnd. subst nd'.
  by apply PyDictMore.elem_get.
Qed.

Lemma inverse_get_complete nd i mapping :
  NoDup (PyBuiltins.values mapping) ->
  PyDict.get i mapping = Some nd ->
  PyDict.get nd (IncidenceTest.inverse_mapping mapping) = Some i.
Proof.
  intros Hinj Hget. apply PyDictMore.get_Some_elem in Hget.
  unfold IncidenceTest.inverse_mapping, PyBuiltins.dict.
  rewrite inverse_rows.
  assert (map fst (map (fun p : Idx * Nd => (p.2, p.1)) mapping)
          = PyBuiltins.values mapping) as Hkeys.
  { unfold PyBuiltins.values. rewrite map_map. done. }
  rewrite PyDictMore.fold_set_concat by (cbn; by rewrite Hkeys).
  cbn [app PyDict.empty]. apply PyDictMore.elem_get.
  - unfold PyDict.wf, PyDict.keys. by rewrite Hkeys.
  - apply list_elem_of_fmap. by exists (i, nd).
Qed.

End IncidenceTestFacts.
End IncidenceTestFacts.

Section Transform.
Context {K V : Type} `{EqDecision K}.

(** X13. [transform_hye_to_new_indices] fails with [KeyError] exactly when
    some node of the hyperedge is not a key of the mapping; otherwise the
    result has the hyperedge's length and holds, position by position, the
    value stored for each node. *)
Theorem transform_fails_iff_a_node_is_unmapped (hye : list K)
  (mapping_ : PyDict.t K V) :
  (IncidenceTest.transform_hye_to_new_indices hye mapping_ = None <->
   exists node, node ∈ hye /\ node ∉ PyDict.keys mapping_)
  /\ (forall r,
        IncidenceTest.transform_hye_to_new_indices hye mapping_ = Some r ->
        length r = length hye
        /\ Forall2 (fun node x => PyDict.get node mapping_ = Some x) hye r).
Proof.
  unfold IncidenceTest.transform_hye_to_new_indices. split.
  - rewrite mapM_None, Exists_exists.
    split; intros (node & Hin & Hk); exists node; split; try done;
      by apply PyDictMore.get_None_iff.
  - intros r Hr. split; [symmetry; by eapply length_mapM |].
    by apply mapM_Some_1.
Qed.

End Transform.

Section Inverse.
Context {Idx Nd : Type} `{EqDecision Idx} `{EqDecision Nd}.

(** X14. The inverse mapping sends a node to the last index of the mapping
    that carries it, and has no entry for a node the mapping does not
    carry. *)
Theorem inverse_mapping_keeps_the_last_index (mapping : PyDict.t Idx Nd)
  (nd : Nd) :
  PyDict.get nd (IncidenceTest.inverse_mapping mapping)
  = fst <$> last (filter (fun p => p.2 = nd) mapping).
Proof. apply IncidenceTestFacts.inverse_get. Qed.

(** X15. For a mapping that sends distinct indices to distinct nodes, the
    inverse mapping is its inverse: [inverse_mapping[nd] == i] exactly when
    [mapping[i] == nd]. *)
Theorem inverse_mapping_inverts_an_injective_mapping
  (mapping : PyDict.t Idx Nd) (i : Idx) (nd : Nd) :
  PyDict.wf mapping ->
  NoDup (PyBuiltins.values mapping) ->
  PyDict.get nd (IncidenceTest.inverse_mapping mapping) = Some i
  <-> PyDict.get i mapping = Some nd.
Proof.
  intros Hwf Hinj. split.
  - by apply IncidenceTestFacts.inverse_get_sound.
  - by apply IncidenceTestFacts.inverse_get_complete.
Qed.

(** X16. Rewriting a hyperedge to indices with the inverse mapping and back
    with the mapping returns the hyperedge; with [hye_list], every hyperedge
    of the list comes back. *)
Theorem transform_round_trip (mapping : PyDict.t Idx Nd) :
  PyDict.wf mapping ->
  (forall (hye : list Nd) (idxs : list Idx),
      IncidenceTest.transform_hye_to_new_indices hye
        (IncidenceTest.inverse_mapping mapping) = Some idxs ->
      IncidenceTest.transform_hye_to_new_indices idxs mapping = Some hye)
  /\ (forall (edges : list (list Nd)) (hyes : list (list Idx)),
        IncidenceTest.hye_list edges mapping = Some hyes ->
        mapM (fun idxs =>
                IncidenceTest.transform_hye_to_new_indices idxs mapping)
          hyes = Some edges).
Proof.
  intros Hwf.
  assert (forall (hye : list Nd) (idxs : list Idx),
             IncidenceTest.transform_hye_to_new_indices hye
               (IncidenceTest.inverse_mapping mapping) = Some idxs ->
             IncidenceTest.transform_hye_to_new_indices idxs mapping
             = Some hye) as Hone.
  { unfold IncidenceTest.transform_hye_to_new_indices.
    intros hye idxs Hfwd. apply mapM_Some_1 in Hfwd. apply mapM_Some_2.
    induction Hfwd as [|nd i hye idxs Hget _ IH]; constructor; [|done].
    by apply IncidenceTestFacts.inverse_get_sound. }
  split; [exact Hone |].
  unfold IncidenceTest.hye_list. intros edges hyes Hfwd.
  apply mapM_Some_1 in Hfwd. apply mapM_Some_2.
  induction Hfwd as [|hye idxs edges hyes Hget _ IH]; constructor; [|done].
  by apply Hone.
Qed.

End Inverse.

(** * The further properties on concrete inputs *)

Lemma order4_distinct_rows_are_concatenated_witness :
  NoDup (map fst (full4 (C := Sample.collaborators) Sample2.h3
                    ++ not_full4 (C := Sample.collaborators) Sample2.h3))
  /\ (_motifs_order_4 (C := Sample.collaborators) Sample2.h3 Sample.w0).1
     = inr [(1%nat, 1); (2%nat, 1)].
Proof.
  assert (NoDup (map fst (full4 (C := Sample.collaborators) Sample2.h3
                            ++ not_full4 (C := Sample.collaborators)
                                 Sample2.h3))) as Hnd.
  { compute_done. }
  split; [exact Hnd |].
  exact (order4_distinct_rows_are_concatenated (C := Sample.collaborators)
           Sample2.h3 Sample.w0 Hnd).
Defined.

Lemma no_rounds_when_runs_not_positive_witness :
  (4 = 3 \/ 4 = 4) /\ -2 <= 0
  /\ forall out,
      (compute_directed_motifs (C := Sample.collaborators)
         Sample.hg1 4 (-2) Sample.w0).1 = inr out ->
      config_model out = [].
Proof.
  split; [by right |]. split; [lia |].
  exact (proj2 (proj2 (no_rounds_when_runs_not_positive
                         (C := Sample.collaborators) Sample.hg1 4 (-2)
                         Sample.w0 (or_intror eq_refl) ltac:(lia)))).
Defined.

Lemma misaligned_deviations_raise_IndexError_witness :
  (3 = 3 \/ 3 = 4)
  /\ draws (C := Sample2.misaligned) (Z.to_nat 1)
       (get_edges Sample2.hg2 None) (rand (Sample2.world_of 2))
     = (inr [rev Sample.h2], 1%nat)
  /\ (compute_directed_motifs (C := Sample2.misaligned)
        Sample2.hg2 3 1 (Sample2.world_of 2)).1 = inl IndexError.
Proof.
  split; [by left |]. split; [vm_compute; reflexivity |].
  pose proof (misaligned_deviations_raise_IndexError
                (C := Sample2.misaligned) Sample2.hg2 3 1
                (Sample2.world_of 2) [rev Sample.h2] 1%nat
                (or_introl eq_refl) eq_refl) as H.
  cbn zeta in H. destruct H as [[_ H] _]. apply H.
  left. vm_compute. lia.
Defined.

Lemma norm_delta_pairs_positionally_witness :
  exists out w',
    compute_directed_motifs (C := Sample.collaborators)
      Sample.hg1 4 2 Sample.w0 = (inr out, w')
    /\ length (norm_delta out)
       = length (directed_diff_sum (observed out) (config_model out)).
Proof.
  assert (exists out w',
             compute_directed_motifs (C := Sample.collaborators)
               Sample.hg1 4 2 Sample.w0 = (inr out, w'))
    as (out & w' & Hrun) by (eexists _, _; vm_compute; reflexivity).
  exists out, w'. split; [exact Hrun |].
  exact (proj1 (proj2 (norm_delta_pairs_positionally
                         (C := Sample.collaborators)
                         Sample.hg1 4 2 Sample.w0 out w' Hrun))).
Defined.

Lemma order4_visited_state_is_per_classification_witness :
  exists out w',
    compute_directed_motifs (C := Sample.collaborators)
      Sample.hg1 4 2 Sample.w0 = (inr out, w')
    /\ exists ess evs,
        draws (C := Sample.collaborators) (Z.to_nat 2)
          (get_edges Sample.hg1 None) (rand Sample.w0) = (inr ess, rand w')
        /\ trace w' = trace Sample.w0 ++ evs
        /\ full_inputs evs = get_edges Sample.hg1 (Some 4) :: ess
        /\ not_full_inputs evs
           = map (fun e => (e, 4, (Sample.ho_full e 4).2))
               (get_edges Sample.hg1 (Some 4) :: ess).
Proof.
  assert (exists out w',
             compute_directed_motifs (C := Sample.collaborators)
               Sample.hg1 4 2 Sample.w0 = (inr out, w'))
    as (out & w' & Hrun) by (eexists _, _; vm_compute; reflexivity).
  exists out, w'. split; [exact Hrun |].
  exact (order4_visited_state_is_per_classification
           (C := Sample.collaborators) Sample.hg1 2 Sample.w0 out w' Hrun).
Defined.

Lemma steps_are_numbered_from_one_witness :
  (3 = 3 \/ 3 = 4)
  /\ exists evs,
      trace (compute_directed_motifs (C := Sample.collaborators)
               Sample.hg1 3 3 Sample.w0).2 = trace Sample.w0 ++ evs
      /\ step_numbers evs = [1; 2; 3]
      /\ length (config_inputs evs) = 3%nat
      /\ (3 <= Z.to_nat 3)%nat.
Proof.
  split; [by left |].
  exact (steps_are_numbered_from_one (C := Sample.collaborators)
           Sample.hg1 3 3 Sample.w0 (or_introl eq_refl)).
Defined.

Lemma keyword_defaults_are_order_3_and_10_rounds_witness :
  exists out w',
    compute_directed_motifs_kw (C := Sample.collaborators)
      Sample.hg2 None None Sample.w1 = (inr out, w')
    /\ observed out = (Sample.ho_full (Sample.edges_of Sample.h2 (Some 3)) 3).1
    /\ length (config_model out) = 10%nat.
Proof.
  assert (exists out w',
             compute_directed_motifs_kw (C := Sample.collaborators)
               Sample.hg2 None None Sample.w1 = (inr out, w'))
    as (out & w' & Hrun) by (eexists _, _; vm_compute; reflexivity).
  exists out, w'. split; [exact Hrun |].
  destruct (keyword_defaults_are_order_3_and_10_rounds
              (C := Sample.collaborators) Sample.hg2 Sample.w1 out w' Hrun)
    as (Hobs & ess & evs & _ & _ & Hlen & _).
  split; [exact Hobs | exact Hlen].
Defined.

Lemma transform_fails_iff_a_node_is_unmapped_witness :
  IncidenceTest.transform_hye_to_new_indices [0%nat; 2%nat] Sample2.mapping
  = Some ["a"; "c"]
  /\ length ["a"; "c"] = length [0%nat; 2%nat]
  /\ IncidenceTest.transform_hye_to_new_indices [0%nat; 7%nat]
       Sample2.mapping = None.
Proof.
  split; [reflexivity |]. split.
  - exact (proj1 (proj2 (transform_fails_iff_a_node_is_unmapped
                           [0%nat; 2%nat] Sample2.mapping)
                    ["a"; "c"] eq_refl)).
  - apply (proj1 (transform_fails_iff_a_node_is_unmapped
                    [0%nat; 7%nat] Sample2.mapping)).
    exists 7%nat. split; [by right; left |].
    compute_done.
Defined.

Lemma inverse_mapping_inverts_an_injective_mapping_witness :
  PyDict.wf Sample2.mapping
  /\ NoDup (PyBuiltins.values Sample2.mapping)
  /\ PyDict.get "b" (IncidenceTest.inverse_mapping Sample2.mapping)
     = Some 1%nat.
Proof.
  assert (PyDict.wf Sample2.mapping) as Hwf.
  { compute_done. }
  assert (NoDup (PyBuiltins.values Sample2.mapping)) as Hinj.
  { compute_done. }
  split; [exact Hwf |]. split; [exact Hinj |].
  apply (proj2 (inverse_mapping_inverts_an_injective_mapping
                  Sample2.mapping 1%nat "b" Hwf Hinj)).
  reflexivity.
Defined.

Lemma transform_round_trip_witness :
  PyDict.wf Sample2.mapping
  /\ IncidenceTest.transform_hye_to_new_indices ["c"; "a"]
       (IncidenceTest.inverse_mapping Sample2.mapping)
     = Some [2%nat; 0%nat]
  /\ IncidenceTest.transform_hye_to_new_indices [2%nat; 0%nat]
       Sample2.mapping = Some ["c"; "a"].
Proof.
  assert (PyDict.wf Sample2.mapping) as Hwf.
  { compute_done. }
  split; [exact Hwf |]. split; [vm_compute; reflexivity |].
  apply (proj1 (transform_round_trip Sample2.mapping Hwf)).
  vm_compute. reflexivity.
Defined.

(** * The merge of the two order-4 passes, as the code performs it *)

Section MergeByAssignment.
Context {C : Collaborators}.




End MergeByAssignment.



